(** * pando_client: the publish / announce / confirm engine

    A shallow embedding of [pkg/engine/engine.go].  The engine keeps three
    records (latest advertisement pointer, push history, pending set) in
    memory and in a key/value datastore, stores advertisements in a
    content-addressed link system, announces new heads through an optional
    publisher and polls a remote index to prune the pending set.

    What the engine only consumes is kept apart from it: the deterministic
    functions of the cid and link libraries are the record [Lib], fixed for
    the life of a process; what the outside world answers during one call
    (datastore faults, the transports, the remote peer and the remote index)
    is the record [Env] of that call.  A method of the engine threads the
    [Engine] state explicitly; a Go [panic] is an outcome of its own. *)

From Stdlib Require Import ZArith Ascii String.
From stdpp Require Import gmap strings list.

Local Open Scope string_scope.

(** ** Content ids

    go-cid: [type Cid struct{ str string }], [Undef = Cid{}], and
    [Defined()] says that [str] is not empty. *)

Record Cid := mkCid { cid_str : string }.

#[global] Instance Cid_eq_dec : EqDecision Cid.
Proof. solve_decision. Defined.

#[global] Instance Cid_countable : Countable Cid.
Proof. exact (inj_countable' cid_str mkCid (fun c => match c with mkCid _ => eq_refl end)). Defined.

Definition Undef : Cid := mkCid EmptyString.

Definition Defined (c : Cid) : bool := negb (String.eqb (cid_str c) EmptyString).

(** [c.Equals(o)] and [c == o]: comparison of the underlying strings. *)
Definition Equals (c o : Cid) : bool := bool_decide (c = o).

(** [c.Bytes()] is [[]byte(c.str)]. *)
Definition Bytes (c : Cid) : list Byte.byte := String.list_byte_of_string (cid_str c).

(** ** Errors *)

Inductive Error :=
| ErrNotFound                                  (* datastore.ErrNotFound *)
| ErrExternal (msg : string)                   (* an error value of a collaborator *)
| Errorf (msg : string)                        (* fmt.Errorf with a fixed text *)
| ErrorfWrap (msg : string) (cause : Error).   (* fmt.Errorf("...: %w", err) *)

Inductive Result (A : Type) :=
| Ok (a : A)
| Err (err : Error).
Arguments Ok {A} a.
Arguments Err {A} err.

(** [cid.CidFromBytes]: the bytes are read back as the cid's string; the
    empty byte string is no cid.  (The structure of a well-formed cid is not
    modelled: every non-empty byte string stands for one.) *)
Definition CidFromBytes (b : list Byte.byte) : Result Cid :=
  let s := String.string_of_list_byte b in
  if String.eqb s EmptyString then Err (ErrExternal "invalid cid bytes") else Ok (mkCid s).

(** ** Advertisements and nodes *)

Inductive DataNode :=
| BytesNode (b : list Byte.byte)
| StructNode (descr : string).

(** [schema.Metadata] of the pando library: previous link, provider,
    payload and signature. *)
Record Metadata := mkMetadata {
  PreviousID : option Cid;
  Provider : string;
  Payload : DataNode;
  Signature : list Byte.byte
}.

(** An IPLD node as the link system holds it: an advertisement, or a block
    that is not one. *)
Inductive Node :=
| MetaNode (m : Metadata)
| ForeignNode (raw : list Byte.byte).

(** [schema.UnwrapMetadata]. *)
Definition UnwrapMetadata (n : Node) : Result Metadata :=
  match n with
  | MetaNode m => Ok m
  | ForeignNode _ => Err (ErrExternal "unwrapped node does not match schema.Metadata")
  end.

(** [dataNode.AsBytes()]. *)
Definition AsBytes (d : DataNode) : Result (list Byte.byte) :=
  match d with
  | BytesNode b => Ok b
  | StructNode _ => Err (ErrExternal "wrong kind: AsBytes on a non-bytes node")
  end.

(** ** Selectors of the remote traversal *)

Inductive RecursionLimit :=
| RecursionLimitNone                 (* the zero value of selector.RecursionLimit *)
| RecursionLimitDepth (d : Z).

Record Selector := LegSelector {
  sel_limit : RecursionLimit;
  sel_stop : option Cid
}.

(** ** The remote index's answers *)

(** Modelled from the spec: the type [MetaInclusion] is declared outside
    [engine.go]; the index answers [data:{InPando: bool, ...}]. *)
Record MetaInclusion := mkMetaInclusion { InPando : bool }.

(** What [json.Unmarshal] makes of a response body read as
    [inclusionResJson]: not JSON of that shape, or the three fields, where
    [Data] is a pointer and stays nil when the field is absent or null. *)
Inductive InclusionBody :=
| InclusionMalformed
| InclusionJson (code : Z) (message : string) (Data : option MetaInclusion).

(** The same for [latestSyncResJson], whose [Data] is a struct by value. *)
Inductive HeadBody :=
| HeadMalformed
| HeadJson (code : Z) (message : string) (DataCid : string).

(** What a resty [Get] returns: a transport error, or a response. *)
Inductive HttpResult (B : Type) :=
| TransportError (err : Error)
| Response (status : Z) (body : B).
Arguments TransportError {B} err.
Arguments Response {B} status body.

(** ** The announcement transport *)

(** Modelled from the spec: the kinds are declared with the options, outside
    [engine.go]: disabled, gossip broadcast, HTTP pull; any other value is
    an unknown kind. *)
Inductive PublisherKind :=
| NoPublisher
| DataTransferPublisher
| HttpPublisher
| OtherPublisher (name : string).

(** A [legs.Publisher]: its current root and the roots it announced, oldest
    first. *)
Record Publisher := mkPublisher {
  pub_root : Cid;
  pub_announced : list Cid;
  pub_closed : bool
}.

(** ** The datastore

    Values are byte strings in Go.  The three keys hold the cid's bytes, the
    JSON of a [[]cid.Cid] and the JSON of a [map[string]struct{}]; JSON is
    kept abstract as a tag over the value it encodes. *)
Inductive DsVal :=
| RawBytes (b : list Byte.byte)
| JsonCidList (l : list Cid)
| JsonStringSet (s : gset string).

Definition dsLatestMetaKey : string := "/sync/meta/latest".
Definition dsPushedCidListKey : string := "/sync/meta/list".
Definition dsCheckCidListKey : string := "/sync/meta/check".

(** Where [lsys.Load] is called from in [CatCid]. *)
Inductive LoadSite := LocalLookup | AfterSync.

(** ** The libraries and the environment of one call *)

Record Lib := mkLib {
  cid_String : Cid -> string;                  (* c.String() *)
  cid_Decode : string -> Result Cid;           (* cid.Decode *)
  link_of : Node -> Cid;                       (* the cid lsys.Store computes *)
  dagjson_Encode : DataNode -> Result (list Byte.byte)
}.

Record Env := mkEnv {
  get_fault : string -> option Error;          (* ds.Get fails on this key *)
  put_fault : string -> option Error;          (* ds.Put fails on this key *)
  to_node_fault : Metadata -> option Error;    (* adv.ToNode() fails *)
  store_fault : Node -> option Error;          (* lsys.Store fails *)
  load_fault : LoadSite -> Cid -> option Error;     (* lsys.Load fails *)
  sign_fault : list Byte.byte -> option Cid -> option Error;
  signature_of : list Byte.byte -> option Cid -> list Byte.byte;
  host_id : string;                            (* e.h.ID() *)
  new_publisher_fault : option Error;
  set_root_fault : Cid -> option Error;
  update_root_fault : Cid -> option Error;
  close_fault : option Error;
  new_sync_fault : option Error;               (* dtsync.NewSync fails *)
  (* syncer.Sync: the blocks received, in the order of the block hook, and
     the error the traversal ends with *)
  remote_walk : Cid -> Selector -> list (Cid * Node) * option Error;
  inclusion_query : string -> HttpResult InclusionBody;
  head_query : string -> HttpResult HeadBody;
  range_rank : string -> nat                   (* order of a map range *)
}.

(** ** The engine *)

Record Engine := mkEngine {
  pubKind : PublisherKind;
  ds : gmap string DsVal;
  blocks : gmap Cid Node;                      (* storage behind lsys *)
  publisher : option Publisher;                (* nil is None *)
  latestMeta : Cid;
  pushList : list Cid;
  checkList : gset string;
  closing : bool                               (* the channel is closed *)
}.

Definition set_ds (d : gmap string DsVal) (e : Engine) : Engine :=
  mkEngine (pubKind e) d (blocks e) (publisher e) (latestMeta e) (pushList e) (checkList e) (closing e).
Definition set_blocks (b : gmap Cid Node) (e : Engine) : Engine :=
  mkEngine (pubKind e) (ds e) b (publisher e) (latestMeta e) (pushList e) (checkList e) (closing e).
Definition set_publisher (p : option Publisher) (e : Engine) : Engine :=
  mkEngine (pubKind e) (ds e) (blocks e) p (latestMeta e) (pushList e) (checkList e) (closing e).
Definition set_latestMeta (c : Cid) (e : Engine) : Engine :=
  mkEngine (pubKind e) (ds e) (blocks e) (publisher e) c (pushList e) (checkList e) (closing e).
Definition set_pushList (l : list Cid) (e : Engine) : Engine :=
  mkEngine (pubKind e) (ds e) (blocks e) (publisher e) (latestMeta e) l (checkList e) (closing e).
Definition set_checkList (s : gset string) (e : Engine) : Engine :=
  mkEngine (pubKind e) (ds e) (blocks e) (publisher e) (latestMeta e) (pushList e) s (closing e).
Definition set_closing (b : bool) (e : Engine) : Engine :=
  mkEngine (pubKind e) (ds e) (blocks e) (publisher e) (latestMeta e) (pushList e) (checkList e) b.

(** ** Outcomes and the engine monad

    A method of [*Engine] returns a value or an error and leaves the engine
    in a new state, or it panics. *)

Inductive Outcome (A : Type) :=
| Done (a : A) (e : Engine)
| Failed (err : Error) (e : Engine)
| Panicked (e : Engine).
Arguments Done {A} a e.
Arguments Failed {A} err e.
Arguments Panicked {A} e.

Definition M (A : Type) : Type := Engine -> Outcome A.

Definition ret {A} (a : A) : M A := fun e => Done a e.
Definition fail {A} (err : Error) : M A := fun e => Failed err e.
Definition panic {A} : M A := fun e => Panicked e.

Definition bind {A B} (m : M A) (k : A -> M B) : M B :=
  fun e =>
    match m e with
    | Done a e' => k a e'
    | Failed err e' => Failed err e'
    | Panicked e' => Panicked e'
    end.

(** [if err != nil { return ..., wrap(err) }] around a call. *)
Definition wrapping {A} (w : Error -> Error) (m : M A) : M A :=
  fun e =>
    match m e with
    | Failed err e' => Failed (w err) e'
    | o => o
    end.

Definition lift {A} (r : Result A) : M A :=
  fun e => match r with Ok a => Done a e | Err err => Failed err e end.

Definition gets {A} (f : Engine -> A) : M A := fun e => Done (f e) e.
Definition modify (f : Engine -> Engine) : M unit := fun e => Done tt (f e).

Declare Scope engine_scope.
Delimit Scope engine_scope with engine.
Notation "'let*' x ':=' m 'in' k" := (bind m (fun x => k))
  (at level 20, x name, m at level 100, k at level 200, only parsing) : engine_scope.
Notation "m ';;' k" := (bind m (fun _ => k))
  (at level 100, k at level 200, right associativity, only parsing) : engine_scope.
Local Open Scope engine_scope.

Section Engine.

Variable lib : Lib.

(** ** Datastore access *)

Definition ds_Get (env : Env) (key : string) (e : Engine) : Result DsVal :=
  match get_fault env key with
  | Some err => Err err
  | None =>
      match ds e !! key with
      | Some v => Ok v
      | None => Err ErrNotFound
      end
  end.

Definition ds_Put (env : Env) (key : string) (v : DsVal) : M unit :=
  fun e =>
    match put_fault env key with
    | Some err => Failed err e
    | None => Done tt (set_ds (<[key := v]> (ds e)) e)
    end.

Definition getLatestMetaCid (env : Env) (e : Engine) : Result Cid :=
  match ds_Get env dsLatestMetaKey e with
  | Err ErrNotFound => Ok Undef
  | Err err => Err err
  | Ok (RawBytes b) => CidFromBytes b
  | Ok _ => Err (ErrExternal "invalid cid bytes")
  end.

Definition GetPushedList (env : Env) (e : Engine) : Result (list Cid) :=
  match ds_Get env dsPushedCidListKey e with
  | Err ErrNotFound => Ok []
  | Err err => Err err
  | Ok (JsonCidList l) => Ok l
  | Ok _ => Err (ErrExternal "json: cannot unmarshal into []cid.Cid")
  end.

Definition GetCheckList (env : Env) (e : Engine) : Result (gset string) :=
  match ds_Get env dsCheckCidListKey e with
  | Err ErrNotFound => Ok ∅
  | Err err => Err err
  | Ok (JsonStringSet s) => Ok s
  | Ok _ => Err (ErrExternal "json: cannot unmarshal into map[string]struct{}")
  end.

Definition initInfo (env : Env) (e : Engine) : Result Engine :=
  match getLatestMetaCid env e with
  | Err err => Err err
  | Ok metaCid =>
      let e1 := set_latestMeta metaCid e in
      match GetPushedList env e1 with
      | Err err => Err err
      | Ok pushedList =>
          let e2 := set_pushList pushedList e1 in
          match GetCheckList env e2 with
          | Err err => Err err
          | Ok cl => Ok (set_checkList cl e2)
          end
      end
  end.

(** [New]: the options give the publisher kind and the datastore; the link
    system is made over the node storage [blk]. *)
Definition New (env : Env) (kind : PublisherKind) (d : gmap string DsVal)
    (blk : gmap Cid Node) : Result Engine :=
  initInfo env (mkEngine kind d blk None Undef [] ∅ false).

(** ** The publisher *)

(** [publisher.SetRoot]: sets the root without announcing it. *)
Definition SetRoot (env : Env) (p : Publisher) (c : Cid) : Result Publisher :=
  match set_root_fault env c with
  | Some err => Err err
  | None => Ok (mkPublisher c (pub_announced p) (pub_closed p))
  end.

(** [publisher.UpdateRoot]: sets the root and announces it. *)
Definition UpdateRoot (env : Env) (p : Publisher) (c : Cid) : Result Publisher :=
  match update_root_fault env c with
  | Some err => Err err
  | None => Ok (mkPublisher c (pub_announced p ++ [c]) (pub_closed p))
  end.

Definition newPublisher (env : Env) (e : Engine) : Result (option Publisher) :=
  match pubKind e with
  | NoPublisher => Ok None
  | DataTransferPublisher | HttpPublisher =>
      match new_publisher_fault env with
      | Some err => Err err
      | None => Ok (Some (mkPublisher Undef [] false))
      end
  | OtherPublisher _ => Err (Errorf "unknown publisher kind")
  end.

Definition Start (env : Env) : M unit :=
  fun e =>
    match newPublisher env e with
    | Err err => Failed err (set_publisher None e)
    | Ok p =>
        let e1 := set_publisher p e in
        match getLatestMetaCid env e1 with
        | Err err => Failed (ErrorfWrap "could not get latest metadata cid" err) e1
        | Ok metaCid =>
            if bool_decide (metaCid <> Undef) then
              match publisher e1 with
              | None => Panicked e1            (* SetRoot on a nil publisher *)
              | Some pub =>
                  match SetRoot env pub metaCid with
                  | Err err => Failed err e1
                  | Ok pub' => Done tt (set_publisher (Some pub') e1)
                  end
              end
            else Done tt e1
        end
    end.

(** ** Persisting the three records *)

Definition updateLatestMeta (env : Env) (c : Cid) : M unit :=
  if bool_decide (c = Undef) then fail (Errorf "meta cid can not be nil")
  else
    modify (set_latestMeta c) ;;
    ds_Put env dsLatestMetaKey (RawBytes (Bytes c)).

Definition updatePushedList (env : Env) (list : list Cid) : M unit :=
  if bool_decide (length list = 0) then fail (Errorf "nil to update")
  else
    modify (set_pushList list) ;;
    ds_Put env dsPushedCidListKey (JsonCidList list).

Definition persistCheckList (env : Env) : M unit :=
  fun e =>
    if bool_decide (size (checkList e) = 0) then Done tt e      (* nil to update *)
    else ds_Put env dsCheckCidListKey (JsonStringSet (checkList e)) e.

(** ** Publishing *)

(** [adv.ToNode()]. *)
Definition ToNode (env : Env) (adv : Metadata) : Result Node :=
  match to_node_fault env adv with
  | Some err => Err err
  | None => Ok (MetaNode adv)
  end.

(** [lsys.Store]: writes the node under the cid computed from it. *)
Definition lsys_Store (env : Env) (n : Node) : M Cid :=
  fun e =>
    match store_fault env n with
    | Some err => Failed err e
    | None => Done (link_of lib n) (set_blocks (<[link_of lib n := n]> (blocks e)) e)
    end.

(** [lsys.Load]. *)
Definition lsys_Load (env : Env) (site : LoadSite) (c : Cid) (e : Engine) : Result Node :=
  match load_fault env site c with
  | Some err => Err err
  | None =>
      match blocks e !! c with
      | Some n => Ok n
      | None => Err ErrNotFound
      end
  end.

Definition PublishLocal (env : Env) (adv : Metadata) : M Cid :=
  let* adNode := lift (ToNode env adv) in
  let* c := wrapping (fun err => ErrorfWrap "cannot generate advertisement link" err)
              (lsys_Store env adNode) in
  wrapping (fun err => ErrorfWrap "failed to update reference to latest metadata" err)
    (updateLatestMeta env c) ;;
  let* pl := gets pushList in
  wrapping (fun err => ErrorfWrap "failed to update pushed cid list" err)
    (updatePushedList env (pl ++ [c])) ;;
  ret c.

Definition Publish (env : Env) (metadata : Metadata) : M Cid :=
  let* c := wrapping (fun err => ErrorfWrap "failed to publish advertisement locally" err)
              (PublishLocal env metadata) in
  let* pub := gets publisher in
  match pub with
  | Some p =>
      match UpdateRoot env p c with
      | Err err => fail err
      | Ok p' =>
          modify (set_publisher (Some p')) ;;
          modify (fun e => set_checkList ({[cid_String lib c]} ∪ checkList e) e) ;;
          persistCheckList env ;;
          ret c
      end
  | None => ret c                                (* nil publisher! *)
  end.

(** PublishLatest re-publishes the latest existing metadata. *)
Definition PublishLatest (env : Env) : M Cid :=
  let* metaCid := (fun e => lift (getLatestMetaCid env e) e) in
  if Equals metaCid Undef then
    fail (Errorf "no pushed metadata to announce, skip announce")
  else
    let* pub := gets publisher in
    match pub with
    | None => panic                              (* UpdateRoot on a nil publisher *)
    | Some p =>
        match UpdateRoot env p metaCid with
        | Err err => fail err
        | Ok p' => modify (set_publisher (Some p')) ;; ret metaCid
        end
    end.

(** Modelled from the spec: [NewMetaWithBytesPayload] lives in the schema
    package, outside [engine.go]; it wraps the payload and the previous link
    into a new advertisement of this provider and signs it. *)
Definition NewMetaWithBytesPayload (env : Env) (data : list Byte.byte)
    (prevLink : option Cid) : Result Metadata :=
  match sign_fault env data prevLink with
  | Some err => Err err
  | None => Ok (mkMetadata prevLink (host_id env) (BytesNode data) (signature_of env data prevLink))
  end.

Definition PublishBytesData (env : Env) (data : list Byte.byte) : M Cid :=
  let* latest := gets latestMeta in
  let prevLink := if Defined latest then Some latest else None in
  let* meta := lift (NewMetaWithBytesPayload env data prevLink) in
  Publish env meta.

(** ** Remote sync *)

(** The received blocks are written to the link system's storage as they
    arrive. *)
Definition store_received (received : list (Cid * Node)) (b : gmap Cid Node) : gmap Cid Node :=
  foldl (fun acc cn => <[cn.1 := cn.2]> acc) b received.

Definition Sync (env : Env) (c : string) (depth : Z) (endCidStr : string) : M (list Cid) :=
  let* syncCid := lift (cid_Decode lib c) in
  let* endCid := (if bool_decide (endCidStr <> EmptyString)
                  then lift (cid_Decode lib endCidStr) else ret Undef) in
  match new_sync_fault env with
  | Some err => fail err
  | None =>
      let sel :=
        if negb (depth =? 0)%Z || Defined endCid then
          LegSelector
            (if negb (depth =? 0)%Z then RecursionLimitDepth depth else RecursionLimitNone)
            (if Defined endCid then Some endCid else None)
        else LegSelector (RecursionLimitDepth 999999) None in
      (* blockHook appends every received cid to syncRes *)
      let received := (remote_walk env syncCid sel).1 in
      let syncRes := received.*1 in
      modify (fun e => set_blocks (store_received received (blocks e)) e) ;;
      (* err = syncer.Sync(ctx, syncCid, sel) is assigned and not looked at *)
      ret syncRes
  end.

Definition handleResError {B} (res : HttpResult B) : Result B :=
  match res with
  | TransportError err => Err err
  | Response status body =>
      if (399 <? status)%Z then Err (Errorf "failed to get latest head, error: response is an error")
      else if negb (status =? 200)%Z then Err (Errorf "failed to get latest head, error: expect 200")
      else Ok body
  end.

Definition SyncWithProvider (env : Env) (provider : string) (depth : Z) (endCid : string) : M unit :=
  let* res := lift (handleResError (head_query env provider)) in
  match res with
  | HeadMalformed => fail (ErrExternal "json: cannot unmarshal into latestSyncResJson")
  | HeadJson _ _ dataCid => Sync env dataCid depth endCid ;; ret tt
  end.

(** ** The local-or-remote read *)

Definition catRemote (env : Env) (c : Cid) : M Node :=
  let* syncCids := Sync env (cid_String lib c) 1 EmptyString in
  if negb (length syncCids =? 1)%nat then fail (Errorf "wrong nodes number")
  else
    match syncCids with
    | c0 :: _ =>
        if negb (Equals c0 c) then fail (Errorf "sync node dismatched cid")
        else fun e => lift (lsys_Load env AfterSync c e) e
    | [] => panic                                  (* syncCids[0]: index out of range *)
    end.

Definition CatCid (env : Env) (c : Cid) : M (list Byte.byte) :=
  let* n := (fun e =>
               match lsys_Load env LocalLookup c e with
               | Ok n => Done n e
               | Err ErrNotFound => catRemote env c e
               | Err err => Failed err e
               end) in
  let* meta := lift (UnwrapMetadata n) in
  let dataNode := Payload meta in
  match AsBytes dataNode with
  | Ok bytesRes => ret bytesRes
  | Err _ => lift (dagjson_Encode lib dataNode)      (* try dagjson encode *)
  end.

(** ** The reconciliation loop *)

(** A Go map is ranged over in an order the runtime picks: the keys sorted
    by the rank the environment gives them. *)
Fixpoint insert_ranked (rank : string -> nat) (k : string) (l : list string) : list string :=
  match l with
  | [] => [k]
  | x :: r => if (rank k <=? rank x)%nat then k :: l else x :: insert_ranked rank k r
  end.

Definition range_order (env : Env) (s : gset string) : list string :=
  foldr (insert_ranked (range_rank env)) [] (elements s).

(** The body of [checkSyncStatus], over the ids in the order of the range. *)
Fixpoint checkSyncStatus (env : Env) (ids : list string) : M unit :=
  match ids with
  | [] => ret tt
  | c :: rest =>
      fun e =>
        if closing e then Done tt e                 (* quit if closed *)
        else
          match handleResError (inclusion_query env c) with
          | Err _ => checkSyncStatus env rest e     (* log, continue *)
          | Ok InclusionMalformed => checkSyncStatus env rest e     (* log, continue *)
          | Ok (InclusionJson _ _ None) =>
              (* logged; the continue is commented out, and inclusion.InPando
                 reads through the nil pointer *)
              Panicked e
          | Ok (InclusionJson _ _ (Some inclusion)) =>
              if InPando inclusion
              then checkSyncStatus env rest (set_checkList (checkList e ∖ {[c]}) e)
              else checkSyncStatus env rest e
          end
  end.

(** One round of [runCheck] on the ticker. *)
Definition runCheck_tick (env : Env) : M unit :=
  fun e =>
    if bool_decide (size (checkList e) = 0) then Done tt e
    else
      let _checkMap := checkList e in
      match checkSyncStatus env (range_order env _checkMap) e with
      | Done _ e1 | Failed _ e1 =>
          match persistCheckList env e1 with
          | Done _ e2 => Done tt e2
          | Failed _ e2 => Done tt e2               (* the error is logged *)
          | Panicked e2 => Panicked e2
          end
      | Panicked e1 => Panicked e1
      end.

Definition Shutdown (env : Env) : M unit :=
  fun e =>
    let '(errs, e1) :=
      match publisher e with
      | Some p =>
          (option_map (fun err => ErrorfWrap "error closing leg publisher" err) (close_fault env),
           set_publisher (Some (mkPublisher (pub_root p) (pub_announced p) true)) e)
      | None => (None, e)
      end in
    if closing e1 then Panicked e1                  (* close of a closed channel *)
    else
      match errs with
      | Some err => Failed err (set_closing true e1)
      | None => Done tt (set_closing true e1)
      end.

(** ** Runs of the engine *)

(** The operations a process performs on its engine: the calls of the
    foreground and the rounds of the background loop. *)
Inductive Op :=
| OpStart
| OpPublish (metadata : Metadata)
| OpPublishBytesData (data : list Byte.byte)
| OpPublishLatest
| OpSync (c : string) (depth : Z) (endCidStr : string)
| OpSyncWithProvider (provider : string) (depth : Z) (endCid : string)
| OpCatCid (c : Cid)
| OpTick
| OpShutdown.

Definition forget {A} (o : Outcome A) : Outcome unit :=
  match o with
  | Done _ e => Done tt e
  | Failed err e => Failed err e
  | Panicked e => Panicked e
  end.

Definition run_op (env : Env) (op : Op) (e : Engine) : Outcome unit :=
  match op with
  | OpStart => Start env e
  | OpPublish metadata => forget (Publish env metadata e)
  | OpPublishBytesData data => forget (PublishBytesData env data e)
  | OpPublishLatest => forget (PublishLatest env e)
  | OpSync c depth endCidStr => forget (Sync env c depth endCidStr e)
  | OpSyncWithProvider provider depth endCid => SyncWithProvider env provider depth endCid e
  | OpCatCid c => forget (CatCid env c e)
  | OpTick => runCheck_tick env e
  | OpShutdown => Shutdown env e
  end.

(** The engine after an outcome; a panic ends the process. *)
Definition survives {A} (o : Outcome A) : option Engine :=
  match o with
  | Done _ e | Failed _ e => Some e
  | Panicked _ => None
  end.

(** The engine an outcome leaves behind, whatever the outcome. *)
Definition state_of {A} (o : Outcome A) : Engine :=
  match o with
  | Done _ e | Failed _ e | Panicked e => e
  end.

(** One operation, returning or failing, takes the engine from [e] to [e']. *)
Definition step (e e' : Engine) : Prop :=
  exists env op, survives (run_op env op e) = Some e'.

(** The states of a process that began with [New] over an empty datastore. *)
Inductive reachable : Engine -> Prop :=
| reachable_New env kind blk e :
    New env kind ∅ blk = Ok e -> reachable e
| reachable_step e e' :
    reachable e -> step e e' -> reachable e'.

(** A run of publishes that all succeed: the content ids returned, each with
    the engine as the call left it. *)
Fixpoint publishes (calls : list (Env * list Byte.byte)) (e : Engine)
    : option (list (Cid * Engine)) :=
  match calls with
  | [] => Some []
  | (env, data) :: rest =>
      match PublishBytesData env data e with
      | Done c e1 => option_map (cons (c, e1)) (publishes rest e1)
      | _ => None
      end
  end.

(** The pending set as a restart would read it back ([GetCheckList] without
    a read fault). *)
Definition persisted_checkList (e : Engine) : option (gset string) :=
  match ds e !! dsCheckCidListKey with
  | None => Some ∅
  | Some (JsonStringSet s) => Some s
  | Some _ => None
  end.

(** Every pending id is the text of a pushed cid. *)
Definition pending_pushed (e : Engine) : Prop :=
  forall k, k ∈ checkList e -> exists c, c ∈ pushList e /\ cid_String lib c = k.

(** A relation between the engine before a call and the engine the call
    leaves, whatever the outcome. *)
Definition keeps {A} (R : relation Engine) (m : M A) : Prop :=
  forall e, R e (state_of (m e)).

(** The engine after [PublishLocal] stored [adv] under [c] and updated the
    pointer and the history. *)
Definition locally_published (adv : Metadata) (c : Cid) (e : Engine) : Engine :=
  mkEngine (pubKind e)
    (<[dsPushedCidListKey := JsonCidList (pushList e ++ [c])]>
       (<[dsLatestMetaKey := RawBytes (Bytes c)]> (ds e)))
    (<[c := MetaNode adv]> (blocks e))
    (publisher e) c (pushList e ++ [c]) (checkList e) (closing e).

(** A call that leaves the pending set alone, in memory and in the store. *)
Definition pending_untouched (e e' : Engine) : Prop :=
  checkList e' = checkList e /\
  ds e' !! dsCheckCidListKey = ds e !! dsCheckCidListKey.

(** A call under which the push history only grows at its end. *)
Definition history_grows (e e' : Engine) : Prop :=
  pushList e `prefix_of` pushList e'.

(** A call after which every pending id was pending before or is the text
    of a pushed cid, and under which the history grows. *)
Definition pending_accounted (e e' : Engine) : Prop :=
  history_grows e e' /\
  forall k, k ∈ checkList e' ->
    k ∈ checkList e \/ exists c, c ∈ pushList e' /\ cid_String lib c = k.

(** What [Sync] returns once the traversal ran from [syncCid] under [sel]:
    the ids of the blocks received, the blocks being in the storage. *)
Definition synced (env : Env) (syncCid : Cid) (sel : Selector) (e : Engine)
    : Outcome (list Cid) :=
  let received := (remote_walk env syncCid sel).1 in
  Done (received.*1) (set_blocks (store_received received (blocks e)) e).

(** The remote index answers 200 for [k], with [InPando] set. *)
Definition confirmed (env : Env) (k : string) : Prop :=
  exists code message,
    inclusion_query env k =
    Response 200 (InclusionJson code message (Some (mkMetaInclusion true))).

(** Every advertisement of the history, and the latest one, is in the
    local storage. *)
Definition stored_history (e : Engine) : Prop :=
  (forall c, c ∈ pushList e -> is_Some (blocks e !! c)) /\
  (latestMeta e <> Undef -> is_Some (blocks e !! latestMeta e)).

(** A call that removes no block and keeps the history stored. *)
Definition keeps_stored (e e' : Engine) : Prop :=
  dom (blocks e) ⊆ dom (blocks e') /\ (stored_history e -> stored_history e').

(** What the datastore holds under the three keys was written by the
    engine: a defined pointer that is in the history, a list that is a
    prefix of the history, a set of strings. *)
Definition persisted_sound (e : Engine) : Prop :=
  (forall v, ds e !! dsLatestMetaKey = Some v ->
     exists c, v = RawBytes (Bytes c) /\ c <> Undef /\ c ∈ pushList e) /\
  (forall v, ds e !! dsPushedCidListKey = Some v ->
     exists l, v = JsonCidList l /\ l `prefix_of` pushList e) /\
  (forall v, ds e !! dsCheckCidListKey = Some v -> exists s, v = JsonStringSet s).

(** A call under which the history grows and the datastore stays sound. *)
Definition keeps_persisted (e e' : Engine) : Prop :=
  history_grows e e' /\ (persisted_sound e -> persisted_sound e').

End Engine.

(** ** A concrete setting

    A library instance and environments to run the engine on: the text of a
    cid is its string behind the multibase letter, a node's cid is made of
    its payload and previous link. *)
Module Fixture.

Definition text_of (c : Cid) : string := String "b"%char (cid_str c).

Definition decode (s : string) : Result Cid :=
  match s with
  | String "b"%char (String a r) => Ok (mkCid (String a r))
  | _ => Err (ErrExternal "invalid cid")
  end.

Definition hash (n : Node) : Cid :=
  match n with
  | MetaNode m =>
      mkCid ("ad(" +:+ match Payload m with
                       | BytesNode b => String.string_of_list_byte b
                       | StructNode d => d
                       end
                   +:+ match PreviousID m with
                       | Some p => "<-" +:+ cid_str p
                       | None => "<-nil"
                       end +:+ ")")
  | ForeignNode raw => mkCid ("raw(" +:+ String.string_of_list_byte raw +:+ ")")
  end.

Definition lib : Lib :=
  mkLib text_of decode hash (fun _ => Err (ErrExternal "dagjson: cannot encode")).

(** An environment in which nothing fails, given the transport's answer to
    [UpdateRoot], the remote peer's walk and the remote index's answers. *)
Definition env_with
    (update : Cid -> option Error)
    (walk : Cid -> Selector -> list (Cid * Node) * option Error)
    (index : string -> HttpResult InclusionBody) : Env :=
  mkEnv (fun _ => None) (fun _ => None) (fun _ => None) (fun _ => None)
        (fun _ _ => None) (fun _ _ => None) (fun _ _ => []) "12D3KooWprovider"
        None (fun _ => None) update None None walk index
        (fun _ => TransportError (ErrExternal "connection refused"))
        (fun _ => 0).

Definition no_walk : Cid -> Selector -> list (Cid * Node) * option Error :=
  fun _ _ => ([], Some (ErrExternal "no peer")).

Definition index_down : string -> HttpResult InclusionBody :=
  fun _ => TransportError (ErrExternal "connection refused").

Definition quiet : Env := env_with (fun _ => None) no_walk index_down.

Definition hello : list Byte.byte := String.list_byte_of_string "hello".
Definition world : list Byte.byte := String.list_byte_of_string "world".

(** A fresh engine of the given kind, as [New] makes it over an empty
    datastore, and the same engine started. *)
Definition fresh (kind : PublisherKind) : Engine :=
  mkEngine kind ∅ ∅ None Undef [] ∅ false.

Definition started (kind : PublisherKind) : Engine :=
  state_of (Start quiet (fresh kind)).

(** ... and after one publish of [hello]. *)
Definition published (kind : PublisherKind) : Engine :=
  state_of (PublishBytesData lib quiet hello (started kind)).

Definition cid_hello : Cid := mkCid "ad(hello<-nil)".
Definition cid_world : Cid := mkCid "ad(world<-ad(hello<-nil))".

(** ... and after a second publish, of [world]. *)
Definition published_twice (kind : PublisherKind) : Engine :=
  state_of (PublishBytesData lib quiet world (published kind)).

(** The transport refuses every announcement. *)
Definition announce_fails : Env :=
  env_with (fun _ => Some (ErrExternal "pubsub: topic closed")) no_walk index_down.

(** The remote index confirms every id. *)
Definition index_confirms : Env :=
  env_with (fun _ => None) no_walk
    (fun _ => Response 200 (InclusionJson 200 "ok" (Some (mkMetaInclusion true)))).

(** The remote index answers 200 with a body that has no [Data]. *)
Definition index_no_data : Env :=
  env_with (fun _ => None) no_walk
    (fun _ => Response 200 (InclusionJson 200 "ok" None)).

(** The remote peer sends one block and the stream breaks. *)
Definition walk_breaks : Env :=
  env_with (fun _ => None)
    (fun c _ => ([(c, ForeignNode hello)], Some (ErrExternal "stream reset")))
    index_down.

(** The remote peer serves the advertisement of [hello] for any request. *)
Definition peer_serves_hello : Env :=
  env_with (fun _ => None)
    (fun _ _ => ([(mkCid "ad(hello<-nil)",
                   MetaNode (mkMetadata None "12D3KooWprovider" (BytesNode hello) []))], None))
    index_down.

(** The engine after the index confirmed the one pending id. *)
Definition confirmed : Engine :=
  state_of (runCheck_tick index_confirms (published DataTransferPublisher)).

Definition ad_hello : Metadata := mkMetadata None "12D3KooWprovider" (BytesNode hello) [].

(** An environment in which nothing fails but the given reads and writes of
    the datastore, with the given answer to the head query. *)
Definition env_io (getf putf : string -> option Error)
    (head : string -> HttpResult HeadBody) : Env :=
  mkEnv getf putf (fun _ => None) (fun _ => None)
        (fun _ _ => None) (fun _ _ => None) (fun _ _ => []) "12D3KooWprovider"
        None (fun _ => None) (fun _ => None) None None
        (fun _ _ => ([(mkCid "ad(hello<-nil)",
                       MetaNode (mkMetadata None "12D3KooWprovider" (BytesNode hello) []))],
                     None))
        index_down head (fun _ => 0).

Definition fault_on (key : string) : string -> option Error :=
  fun k => if String.eqb k key then Some (ErrExternal "disk full") else None.

Definition head_down : string -> HttpResult HeadBody :=
  fun _ => TransportError (ErrExternal "connection refused").

Definition read_fails : Env := env_io (fault_on dsPushedCidListKey) (fun _ => None) head_down.
Definition latest_write_fails : Env := env_io (fun _ => None) (fault_on dsLatestMetaKey) head_down.
Definition pending_write_fails : Env := env_io (fun _ => None) (fault_on dsCheckCidListKey) head_down.

(** The index names the advertisement of [hello] as the provider's head. *)
Definition head_is_hello : Env :=
  env_io (fun _ => None) (fun _ => None)
    (fun _ => Response 200 (HeadJson 200 "ok" "bad(hello<-nil)")).

(** An engine made anew over what a process of the given kind left after
    one publish. *)
Definition restarted (kind : PublisherKind) : Engine :=
  mkEngine kind (ds (published kind)) (blocks (published kind)) None
    cid_hello [cid_hello] (checkList (published kind)) false.

End Fixture.

(** * Properties *)

Section Properties.

Variable lib : Lib.

(** ** Stepping through the monad *)

Ltac unfold_M :=
  unfold bind, wrapping, lift, ret, fail, panic, gets, modify in *.

Section Keeps.
Context (R : relation Engine) `{!PreOrder R}.

Lemma keeps_ret {A} (a : A) : keeps R (ret a).
Proof. intros e. simpl. reflexivity. Qed.

Lemma keeps_fail {A} err : keeps R (@fail A err).
Proof. intros e. simpl. reflexivity. Qed.

Lemma keeps_panic {A} : keeps R (@panic A).
Proof. intros e. simpl. reflexivity. Qed.

Lemma keeps_lift {A} (r : Result A) : keeps R (lift r).
Proof. intros e. destruct r; simpl; reflexivity. Qed.

Lemma keeps_gets {A} (f : Engine -> A) : keeps R (gets f).
Proof. intros e. simpl. reflexivity. Qed.

Lemma keeps_modify f : (forall e, R e (f e)) -> keeps R (modify f).
Proof. intros H e. simpl. apply H. Qed.

Lemma keeps_bind {A B} (m : M A) (k : A -> M B) :
  keeps R m -> (forall a, keeps R (k a)) -> keeps R (bind m k).
Proof.
  intros Hm Hk e. unfold bind. specialize (Hm e).
  destruct (m e) as [a e1|err e1|e1]; simpl in *; try assumption.
  etransitivity; [exact Hm | apply Hk].
Qed.

Lemma keeps_wrapping {A} w (m : M A) : keeps R m -> keeps R (wrapping w m).
Proof.
  intros Hm e. unfold wrapping. specialize (Hm e).
  destruct (m e); simpl in *; assumption.
Qed.

Lemma keeps_reader {A} (f : Engine -> Result A) : keeps R (fun e => lift (f e) e).
Proof. intros e. destruct (f e); simpl; reflexivity. Qed.

End Keeps.

(** ** Content ids *)

Lemma Defined_true c : Defined c = true <-> c <> Undef.
Proof.
  destruct c as [s]. unfold Defined, Undef. simpl.
  rewrite negb_true_iff. split.
  - intros H [= ->]. simpl in H. discriminate.
  - intros H. apply String.eqb_neq. intros ->. apply H. reflexivity.
Qed.

Lemma Defined_false c : Defined c = false <-> c = Undef.
Proof.
  rewrite <- not_true_iff_false, Defined_true.
  destruct (decide (c = Undef)); naive_solver.
Qed.

Lemma CidFromBytes_Bytes c : c <> Undef -> CidFromBytes (Bytes c) = Ok c.
Proof.
  intros H. unfold CidFromBytes, Bytes.
  rewrite String.string_of_list_byte_of_string.
  apply Defined_true in H. unfold Defined in H.
  apply negb_true_iff in H. rewrite H. destruct c; reflexivity.
Qed.

Lemma keys_distinct :
  dsLatestMetaKey <> dsPushedCidListKey /\
  dsLatestMetaKey <> dsCheckCidListKey /\
  dsPushedCidListKey <> dsCheckCidListKey.
Proof. repeat split; discriminate. Qed.

(** ** What a local publish does *)

Lemma PublishLocal_Done env adv e c e1 :
  PublishLocal lib env adv e = Done c e1 ->
  c = link_of lib (MetaNode adv) /\ c <> Undef /\ e1 = locally_published adv c e.
Proof.
  unfold PublishLocal, ToNode, lsys_Store, updateLatestMeta, updatePushedList, ds_Put.
  unfold_M. intros H.
  destruct (to_node_fault env adv); [discriminate|].
  destruct (store_fault env (MetaNode adv)); [discriminate|].
  case_bool_decide as Hc; [discriminate|].
  destruct (put_fault env dsLatestMetaKey); [discriminate|].
  cbn beta iota in H.
  case_bool_decide as Hlen; [discriminate|].
  destruct (put_fault env dsPushedCidListKey); [discriminate|].
  injection H as <- <-. split; [reflexivity|]. split; [exact Hc|]. reflexivity.
Qed.

(** What a successful [Publish] leaves: the local publish, and with a
    publisher the announcement, the id in the pending set and the set
    written to the store. *)
Lemma Publish_Done env adv e c e2 :
  Publish lib env adv e = Done c e2 ->
  PublishLocal lib env adv e = Done c (locally_published adv c e) /\
  c = link_of lib (MetaNode adv) /\ c <> Undef /\
  match publisher e with
  | None => e2 = locally_published adv c e
  | Some p =>
      update_root_fault env c = None /\
      put_fault env dsCheckCidListKey = None /\
      let e1 := locally_published adv c e in
      let pending := {[cid_String lib c]} ∪ checkList e in
      e2 = set_ds (<[dsCheckCidListKey := JsonStringSet pending]> (ds e1))
             (set_checkList pending
                (set_publisher
                   (Some (mkPublisher c (pub_announced p ++ [c]) (pub_closed p))) e1))
  end.
Proof.
  unfold Publish. unfold_M. intros H.
  destruct (PublishLocal lib env adv e) as [c1 e1|err e1|e1] eqn:Hlocal; try discriminate.
  destruct (PublishLocal_Done _ _ _ _ _ Hlocal) as (Hc & Hne & ->).
  simpl in H. destruct (publisher e) as [p|] eqn:Hpub.
  - unfold UpdateRoot in H. destruct (update_root_fault env c1) eqn:Hup; [discriminate|].
    unfold persistCheckList, ds_Put in H. simpl in H.
    case_bool_decide as Hsize.
    + apply size_empty_inv in Hsize. set_solver.
    + destruct (put_fault env dsCheckCidListKey) eqn:Hput; [discriminate|].
      simplify_eq/=. rewrite Hup. done.
  - simplify_eq/=. done.
Qed.

Lemma PublishBytesData_Done env data e c e2 :
  PublishBytesData lib env data e = Done c e2 ->
  exists adv,
    PreviousID adv = (if Defined (latestMeta e) then Some (latestMeta e) else None) /\
    Payload adv = BytesNode data /\
    Publish lib env adv e = Done c e2 /\
    c <> Undef /\
    latestMeta e2 = c /\
    blocks e2 !! c = Some (MetaNode adv) /\
    ds e2 !! dsLatestMetaKey = Some (RawBytes (Bytes c)).
Proof.
  unfold PublishBytesData, NewMetaWithBytesPayload. unfold_M. intros H.
  destruct (sign_fault env data _) eqn:Hsign; [discriminate|]. simpl in H.
  eexists (mkMetadata _ _ _ _). split; [reflexivity|]. split; [reflexivity|]. split; [exact H|].
  destruct (Publish_Done _ _ _ _ _ H) as (_ & _ & Hne & He2).
  destruct keys_distinct as (Hlp & Hlc & _).
  split; [exact Hne|].
  destruct (publisher e); [destruct He2 as (_ & _ & ->)|subst e2]; simpl;
    rewrite ?lookup_insert_eq, ?(lookup_insert_ne _ dsCheckCidListKey),
            ?(lookup_insert_ne _ dsPushedCidListKey), ?lookup_insert_eq by done; done.
Qed.

(** The chain of a run of publishes, from any engine: the first
    advertisement links to the pointer the engine began with. *)
Lemma publishes_chain_from calls : forall e0 trace,
  publishes lib calls e0 = Some trace ->
  forall n c en, trace !! n = Some (c, en) ->
    c <> Undef /\ latestMeta en = c /\
    exists adv, blocks en !! c = Some (MetaNode adv) /\
      match n with
      | 0 => PreviousID adv = (if Defined (latestMeta e0) then Some (latestMeta e0) else None)
      | S k => exists c' ek, trace !! k = Some (c', ek) /\
                 PreviousID adv = Some c' /\ latestMeta ek = c'
      end.
Proof.
  induction calls as [|[env data] rest IH]; intros e0 trace Hrun n c en Hn.
  - simplify_eq/=.
  - simpl in Hrun.
    destruct (PublishBytesData lib env data e0) as [c0 e1| |] eqn:Hfirst; try discriminate.
    destruct (publishes lib rest e1) as [trace'|] eqn:Hrest; try discriminate.
    simplify_eq/=.
    destruct (PublishBytesData_Done _ _ _ _ _ Hfirst)
      as (adv & Hprev & _ & _ & Hne & Hlatest & Hblk & _).
    destruct n as [|k]; simplify_eq/=.
    + eauto 10.
    + destruct (IH _ _ Hrest _ _ _ Hn) as (Hc & Hl & adv' & Hblk' & Hlink).
      split; [exact Hc|]. split; [exact Hl|].
      exists adv'. split; [exact Hblk'|].
      destruct k as [|k'].
      * exists (latestMeta e1), e1. split; [reflexivity|]. split; [|reflexivity].
        rewrite Hlink. apply Defined_true in Hne. rewrite Hne. reflexivity.
      * exact Hlink.
Qed.

(** [C8] In a run of successful publishes from an engine that has published
    nothing, the first advertisement has no previous link, and the previous
    link of every later one is the content id of the publish before it,
    which is the latest pointer the engine held when the publish began. *)
Theorem publishes_chain_integrity calls e0 trace :
  latestMeta e0 = Undef ->
  publishes lib calls e0 = Some trace ->
  forall n c en, trace !! n = Some (c, en) ->
    c <> Undef /\ latestMeta en = c /\
    exists adv, blocks en !! c = Some (MetaNode adv) /\
      match n with
      | 0 => PreviousID adv = None
      | S k => exists c' ek, trace !! k = Some (c', ek) /\
                 PreviousID adv = Some c' /\ latestMeta ek = c'
      end.
Proof.
  intros Hfresh Hrun n c en Hn.
  destruct (publishes_chain_from _ _ _ Hrun _ _ _ Hn) as (Hc & Hl & adv & Hblk & Hlink).
  split; [exact Hc|]. split; [exact Hl|]. exists adv. split; [exact Hblk|].
  destruct n; [|exact Hlink].
  rewrite Hlink, Hfresh. reflexivity.
Qed.

(** ** The pending set stays within the history *)

#[local] Instance pending_accounted_preorder : PreOrder (pending_accounted lib).
Proof.
  split.
  - intros e. split; [unfold history_grows; reflexivity|]. auto.
  - intros e1 e2 e3 [Hg12 H12] [Hg23 H23]. split.
    + unfold history_grows in *. etransitivity; eassumption.
    + intros k Hk. destruct (H23 k Hk) as [Hk2|Hk3]; [|right; exact Hk3].
      destruct (H12 k Hk2) as [Hk1|(c & Hc & Hs)]; [left; exact Hk1|].
      right. exists c. split; [|exact Hs].
      destruct Hg23 as [l ->]. set_solver.
Qed.

Lemma accounted_same e e' :
  pushList e' = pushList e -> checkList e' ⊆ checkList e -> pending_accounted lib e e'.
Proof.
  intros Hp Hc. split.
  - unfold history_grows. rewrite Hp. reflexivity.
  - intros k Hk. left. apply Hc, Hk.
Qed.

Ltac same_records := apply accounted_same; simpl; [reflexivity | set_solver].

Lemma PublishLocal_accounted env adv : keeps (pending_accounted lib) (PublishLocal lib env adv).
Proof.
  intros e.
  assert (Hgrow : forall c e', pushList e' = (pushList e ++ [c])%list ->
            checkList e' = checkList e -> pending_accounted lib e e').
  { intros c e' Hp Hc. split.
    - unfold history_grows. rewrite Hp. apply prefix_app_r. reflexivity.
    - intros k Hk. left. rewrite <- Hc. exact Hk. }
  unfold PublishLocal, ToNode, lsys_Store, updateLatestMeta, updatePushedList, ds_Put.
  unfold_M.
  destruct (to_node_fault env adv); [same_records|].
  destruct (store_fault env (MetaNode adv)); [same_records|].
  case_bool_decide as Hc; [same_records|].
  destruct (put_fault env dsLatestMetaKey); [same_records|].
  cbn beta iota.
  case_bool_decide as Hlen; [same_records|].
  destruct (put_fault env dsPushedCidListKey);
    apply (Hgrow (link_of lib (MetaNode adv))); reflexivity.
Qed.

Lemma Publish_accounted env adv : keeps (pending_accounted lib) (Publish lib env adv).
Proof.
  intros e. pose proof (PublishLocal_accounted env adv e) as Hlocal.
  unfold Publish. unfold_M.
  destruct (PublishLocal lib env adv e) as [c e1|err e1|e1] eqn:Hrun; simpl in *;
    try exact Hlocal.
  destruct (PublishLocal_Done _ _ _ _ _ Hrun) as (_ & _ & He1).
  etransitivity; [exact Hlocal|].
  assert (Hin : c ∈ pushList e1) by (subst e1; simpl; set_solver).
  assert (Hadd : forall e2, pushList e2 = pushList e1 ->
            checkList e2 = {[cid_String lib c]} ∪ checkList e1 ->
            pending_accounted lib e1 e2).
  { intros e2 Hp Hc. split.
    - unfold history_grows. rewrite Hp. reflexivity.
    - intros k. rewrite Hc, Hp. intros [->%elem_of_singleton|Hk]%elem_of_union; eauto. }
  destruct (publisher e1) as [p|]; [|reflexivity].
  destruct (UpdateRoot env p c); simpl; [|reflexivity].
  unfold persistCheckList, ds_Put. simpl.
  repeat (case_match || case_bool_decide); simplify_eq/=; apply Hadd; reflexivity.
Qed.

Lemma PublishBytesData_accounted env data :
  keeps (pending_accounted lib) (PublishBytesData lib env data).
Proof.
  unfold PublishBytesData.
  apply keeps_bind; [apply _ | apply keeps_gets, _ |]. intros latest.
  apply keeps_bind; [apply _ | apply keeps_lift, _ |]. intros meta.
  apply Publish_accounted.
Qed.

Lemma Sync_accounted env c depth endCidStr :
  keeps (pending_accounted lib) (Sync lib env c depth endCidStr).
Proof.
  intros e. unfold Sync. unfold_M.
  repeat (case_match || case_bool_decide); simplify_eq/=; same_records.
Qed.

Lemma catRemote_accounted env c : keeps (pending_accounted lib) (catRemote lib env c).
Proof.
  unfold catRemote.
  apply keeps_bind; [apply _ | apply Sync_accounted |]. intros syncCids.
  destruct (negb _); [apply keeps_fail, _|].
  destruct syncCids as [|c0 ?]; [apply keeps_panic, _|].
  destruct (negb _); [apply keeps_fail, _ | apply keeps_reader, _].
Qed.

Lemma CatCid_accounted env c : keeps (pending_accounted lib) (CatCid lib env c).
Proof.
  unfold CatCid.
  apply keeps_bind; [apply _ | |].
  - intros e. destruct (lsys_Load env LocalLookup c e) as [n|[]]; simpl;
      try reflexivity.
    apply catRemote_accounted.
  - intros n. apply keeps_bind; [apply _ | apply keeps_lift, _ |]. intros meta.
    destruct (AsBytes _); [apply keeps_ret, _ | apply keeps_lift, _].
Qed.

Lemma checkSyncStatus_accounted env ids :
  keeps (pending_accounted lib) (checkSyncStatus env ids).
Proof.
  induction ids as [|c rest IH]; intros e; simpl; [reflexivity|].
  destruct (closing e); simpl; [reflexivity|].
  destruct (handleResError (inclusion_query env c)) as [[|? ? [inclusion|]]|];
    simpl; try apply IH; try reflexivity.
  destruct (InPando inclusion); [|apply IH].
  etransitivity; [|apply IH]. same_records.
Qed.

Lemma runCheck_tick_accounted env : keeps (pending_accounted lib) (runCheck_tick env).
Proof.
  intros e. pose proof (checkSyncStatus_accounted env (range_order env (checkList e)) e) as H.
  unfold runCheck_tick. case_bool_decide; [reflexivity|].
  destruct (checkSyncStatus _ _ _) as [[] e1|err e1|e1]; simpl in *; try exact H.
  all: etransitivity; [exact H|]; unfold persistCheckList, ds_Put;
    repeat (case_match || case_bool_decide); simplify_eq/=; same_records.
Qed.

Lemma state_of_forget {A} (o : Outcome A) : state_of (forget o) = state_of o.
Proof. destruct o; reflexivity. Qed.

Lemma run_op_accounted env op : keeps (pending_accounted lib) (run_op lib env op).
Proof.
  destruct op; intros e; simpl; rewrite ?state_of_forget.
  - unfold Start, newPublisher, SetRoot.
    repeat (case_match || case_bool_decide); simplify_eq/=; same_records.
  - apply Publish_accounted.
  - apply PublishBytesData_accounted.
  - unfold PublishLatest, UpdateRoot. unfold_M.
    repeat (case_match || case_bool_decide); simplify_eq/=; same_records.
  - apply Sync_accounted.
  - revert e. unfold SyncWithProvider.
    apply keeps_bind; [apply _ | apply keeps_lift, _ |]. intros [|? ? dataCid].
    + apply keeps_fail, _.
    + apply keeps_bind; [apply _ | apply Sync_accounted |]. intros _. apply keeps_ret, _.
  - apply CatCid_accounted.
  - apply runCheck_tick_accounted.
  - unfold Shutdown.
    repeat (case_match || case_bool_decide); simplify_eq/=; same_records.
Qed.

Lemma step_accounted e e' : step lib e e' -> pending_accounted lib e e'.
Proof.
  intros (env & op & Hrun). pose proof (run_op_accounted env op e) as H.
  destruct (run_op lib env op e); simplify_eq/=; exact H.
Qed.

Lemma accounted_pending_pushed e e' :
  pending_pushed lib e -> pending_accounted lib e e' -> pending_pushed lib e'.
Proof.
  intros Hinv [[l Hl] Hacc] k Hk.
  destruct (Hacc k Hk) as [Hold|Hnew]; [|exact Hnew].
  destruct (Hinv k Hold) as (c & Hc & Hs). exists c. split; [|exact Hs].
  rewrite Hl. set_solver.
Qed.

Lemma New_fresh env kind blk e :
  New env kind ∅ blk = Ok e -> pushList e = [] /\ checkList e = ∅ /\ latestMeta e = Undef.
Proof.
  unfold New, initInfo, getLatestMetaCid, GetPushedList, GetCheckList, ds_Get. simpl.
  rewrite !lookup_empty. intros H.
  repeat case_match; simplify_eq/=; done.
Qed.

Lemma reachable_pending_pushed e : reachable lib e -> pending_pushed lib e.
Proof.
  induction 1 as [env kind blk e Hnew|e e' _ IH Hstep].
  - destruct (New_fresh _ _ _ _ Hnew) as (_ & Hc & _).
    intros k. rewrite Hc. set_solver.
  - eapply accounted_pending_pushed; [exact IH | apply step_accounted, Hstep].
Qed.

(** [C7] From a fresh engine, after any operations: every pending id is the
    text of a cid in the push history; and whatever operations follow, the
    history is extended at its end, so it keeps every id it held. *)
Theorem pending_within_history e e' :
  reachable lib e ->
  rtc (step lib) e e' ->
  pending_pushed lib e' /\
  pushList e `prefix_of` pushList e' /\
  (forall c, c ∈ pushList e -> c ∈ pushList e').
Proof.
  intros Hreach Hsteps.
  assert (Hacc : pending_accounted lib e e').
  { induction Hsteps as [|e1 e2 e3 H12 _ IH]; [reflexivity|].
    etransitivity; [apply step_accounted, H12|].
    apply IH. eapply reachable_step; eassumption. }
  split; [|split].
  - eapply accounted_pending_pushed; [apply reachable_pending_pushed, Hreach | exact Hacc].
  - apply Hacc.
  - destruct Hacc as [[l Hl] _]. intros c Hc. rewrite Hl. set_solver.
Qed.

(** ** The local-or-remote read *)

Lemma Sync_one_node env c e :
  cid_Decode lib (cid_String lib c) = Ok c ->
  new_sync_fault env = None ->
  let received := (remote_walk env c (LegSelector (RecursionLimitDepth 1) None)).1 in
  Sync lib env (cid_String lib c) 1 EmptyString e =
  Done (received.*1) (set_blocks (store_received received (blocks e)) e).
Proof.
  intros Hdec Hsync. unfold Sync. unfold_M. rewrite Hdec, Hsync. reflexivity.
Qed.

(** [C5] On a local miss [CatCid] runs the remote sync from the requested
    id with depth 1 (the blocks it receives are in the storage afterwards).
    It returns a payload only if the sync reported exactly the requested id;
    it fails with the node-number error when the sync reported no id or more
    than one, and with the mismatch error when it reported one other id.
    When the one id is the requested one, the result is the payload of the
    node then loaded: its bytes, or else its dagjson encoding. *)
Theorem CatCid_remote_fallback env c e :
  lsys_Load env LocalLookup c e = Err ErrNotFound ->
  cid_Decode lib (cid_String lib c) = Ok c ->
  new_sync_fault env = None ->
  let received := (remote_walk env c (LegSelector (RecursionLimitDepth 1) None)).1 in
  let e1 := set_blocks (store_received received (blocks e)) e in
  state_of (CatCid lib env c e) = e1 /\
  (forall payload e', CatCid lib env c e = Done payload e' -> received.*1 = [c]) /\
  (length received <> 1 ->
   CatCid lib env c e = Failed (Errorf "wrong nodes number") e1) /\
  (forall c0, received.*1 = [c0] -> c0 <> c ->
   CatCid lib env c e = Failed (Errorf "sync node dismatched cid") e1) /\
  (forall n meta, received.*1 = [c] ->
   lsys_Load env AfterSync c e1 = Ok n -> UnwrapMetadata n = Ok meta ->
   CatCid lib env c e =
   match AsBytes (Payload meta) with
   | Ok bytesRes => Done bytesRes e1
   | Err _ => lift (dagjson_Encode lib (Payload meta)) e1
   end).
Proof.
  intros Hmiss Hdec Hsync received e1.
  assert (Hcat : CatCid lib env c e =
    match received.*1 with
    | [c0] =>
        if Equals c0 c then
          match lsys_Load env AfterSync c e1 with
          | Ok n =>
              match UnwrapMetadata n with
              | Ok meta =>
                  match AsBytes (Payload meta) with
                  | Ok bytesRes => Done bytesRes e1
                  | Err _ => lift (dagjson_Encode lib (Payload meta)) e1
                  end
              | Err err => Failed err e1
              end
          | Err err => Failed err e1
          end
        else Failed (Errorf "sync node dismatched cid") e1
    | _ => Failed (Errorf "wrong nodes number") e1
    end).
  { unfold CatCid, catRemote. unfold_M. rewrite Hmiss.
    rewrite (Sync_one_node env c e Hdec Hsync). fold received. fold e1.
    destruct (received.*1) as [|c0 [|c1 rest]]; simpl; try reflexivity.
    destruct (Equals c0 c); simpl; [|reflexivity].
    destruct (lsys_Load env AfterSync c e1) as [n|]; simpl; [|reflexivity].
    destruct (UnwrapMetadata n) as [meta|]; simpl; [|reflexivity].
    destruct (AsBytes (Payload meta)); reflexivity. }
  assert (Hlen : length received = length (received.*1)) by (rewrite length_fmap; reflexivity).
  repeat split.
  - rewrite Hcat. destruct (received.*1) as [|c0 [|c1 rest]]; simpl; try reflexivity.
    destruct (Equals c0 c); simpl; [|reflexivity].
    destruct (lsys_Load env AfterSync c e1) as [n|]; simpl; [|reflexivity].
    destruct (UnwrapMetadata n) as [meta|]; simpl; [|reflexivity].
    destruct (AsBytes (Payload meta)); simpl; [reflexivity|].
    destruct (dagjson_Encode lib (Payload meta)); reflexivity.
  - intros payload e'. rewrite Hcat.
    destruct (received.*1) as [|c0 [|c1 rest]]; simpl; try discriminate.
    unfold Equals. case_bool_decide; [subst; reflexivity | discriminate].
  - intros Hne. rewrite Hcat. rewrite Hlen in Hne.
    destruct (received.*1) as [|c0 [|c1 rest]]; simpl in *; try reflexivity.
    contradiction Hne. reflexivity.
  - intros c0 Hone Hne. rewrite Hcat, Hone. unfold Equals.
    rewrite bool_decide_eq_false_2 by exact Hne. reflexivity.
  - intros n meta Hone Hload Hmeta. rewrite Hcat, Hone. unfold Equals.
    rewrite bool_decide_eq_true_2 by reflexivity. rewrite Hload, Hmeta. reflexivity.
Qed.

(** ** Writing the pending set back *)

(** The reconciliation of a batch changes nothing but the pending set. *)
Lemma checkSyncStatus_only_pending env ids : forall e,
  exists s, s ⊆ checkList e /\ state_of (checkSyncStatus env ids e) = set_checkList s e.
Proof.
  induction ids as [|c rest IH]; intros e; simpl.
  - exists (checkList e). split; [reflexivity|]. destruct e; reflexivity.
  - assert (Hsame : exists s, s ⊆ checkList e /\ e = set_checkList s e).
    { exists (checkList e). split; [reflexivity|]. destruct e; reflexivity. }
    destruct (closing e); simpl; [exact Hsame|].
    destruct (handleResError (inclusion_query env c)) as [[|? ? [inclusion|]]|];
      simpl; try apply IH; try exact Hsame.
    destruct (InPando inclusion); [|apply IH].
    destruct (IH (set_checkList (checkList e ∖ {[c]}) e)) as (s & Hs & ->).
    exists s. split; [simpl in Hs; set_solver | reflexivity].
Qed.

(** [C2] (as amended) A pending set that is not empty is written back whole
    after the mutation: after a [Publish] through a publisher, and after a
    reconciliation round whose write succeeds, the store holds the set as it
    stands in memory.  A round that leaves the set empty writes nothing: the
    datastore is as it was before the round. *)
Theorem pending_persisted_unless_empty :
  (forall env adv e c e' p,
     Publish lib env adv e = Done c e' -> publisher e = Some p ->
     ds e' !! dsCheckCidListKey = Some (JsonStringSet (checkList e')) /\
     persisted_checkList e' = Some (checkList e')) /\
  (forall env e e',
     runCheck_tick env e = Done tt e' ->
     put_fault env dsCheckCidListKey = None ->
     (checkList e' <> ∅ ->
      ds e' !! dsCheckCidListKey = Some (JsonStringSet (checkList e')) /\
      persisted_checkList e' = Some (checkList e')) /\
     (checkList e' = ∅ -> ds e' = ds e)).
Proof.
  split.
  - intros env adv e c e' p Hpub Hp.
    destruct (Publish_Done _ _ _ _ _ Hpub) as (_ & _ & _ & He').
    rewrite Hp in He'. destruct He' as (_ & _ & ->).
    unfold persisted_checkList. simpl. rewrite lookup_insert_eq. done.
  - intros env e e' Htick Hput. unfold runCheck_tick in Htick.
    case_bool_decide as Hsize.
    { simplify_eq. apply size_empty_inv in Hsize.
      split; [intros Hne; contradiction Hne; apply leibniz_equiv, Hsize | reflexivity]. }
    destruct (checkSyncStatus_only_pending env (range_order env (checkList e)) e)
      as (s & _ & Hstate).
    assert (Hpersist : forall e1, e1 = set_checkList s e ->
      match persistCheckList env e1 with
      | Done _ e2 | Failed _ e2 => Done tt e2
      | Panicked e2 => Panicked e2
      end = Done tt e' ->
      (checkList e' <> ∅ ->
       ds e' !! dsCheckCidListKey = Some (JsonStringSet (checkList e')) /\
       persisted_checkList e' = Some (checkList e')) /\
      (checkList e' = ∅ -> ds e' = ds e)).
    { intros e1 -> H. unfold persistCheckList, ds_Put in H. rewrite Hput in H. simpl in H.
      case_bool_decide as Hs; simplify_eq/=.
      - apply size_empty_inv, leibniz_equiv in Hs. split; [intros Hne; contradiction|reflexivity].
      - unfold persisted_checkList. simpl. rewrite lookup_insert_eq. split; [done|].
        intros ->. contradiction Hs. apply size_empty. }
    destruct (checkSyncStatus env (range_order env (checkList e)) e)
      as [[] e1|err e1|e1]; simpl in Hstate; try discriminate;
      apply (Hpersist e1 Hstate); exact Htick.
Qed.

(** ** What the reconciliation loop does with one answer *)

Lemma checkSyncStatus_continues env c rest e :
  closing e = false ->
  (exists err, handleResError (inclusion_query env c) = Err err) \/
  handleResError (inclusion_query env c) = Ok InclusionMalformed ->
  checkSyncStatus env (c :: rest) e = checkSyncStatus env rest e.
Proof.
  intros Hopen Hfail. simpl. rewrite Hopen.
  destruct Hfail as [[err ->]| ->]; reflexivity.
Qed.

Lemma handleResError_not_ok {B} status (body : B) :
  status <> 200%Z -> exists err, handleResError (Response status body) = Err err.
Proof.
  intros Hne. unfold handleResError.
  destruct (399 <? status)%Z; [eauto|].
  destruct (status =? 200)%Z eqn:Heq; [|simpl; eauto].
  apply Z.eqb_eq in Heq. contradiction.
Qed.

Lemma checkSyncStatus_nil_data env c rest e code message :
  closing e = false ->
  inclusion_query env c = Response 200 (InclusionJson code message None) ->
  checkSyncStatus env (c :: rest) e = Panicked e.
Proof. intros Hopen Hq. simpl. rewrite Hopen, Hq. reflexivity. Qed.

(** ** What [Sync] returns when the traversal fails *)

Lemma Sync_unbounded_returns_received env c syncCid e :
  cid_Decode lib c = Ok syncCid ->
  new_sync_fault env = None ->
  let walk := remote_walk env syncCid (LegSelector (RecursionLimitDepth 999999) None) in
  Sync lib env c 0 EmptyString e =
  Done (walk.1.*1) (set_blocks (store_received walk.1 (blocks e)) e).
Proof.
  intros Hdec Hsync. unfold Sync. unfold_M. rewrite Hdec, Hsync. reflexivity.
Qed.

(** [C4] When the advertisement was stored locally and the transport then
    refuses the announcement, [Publish] returns the transport's error and the
    engine stays as the local publish left it: the advertisement is in the
    link system, the latest pointer and the push history hold the new id, in
    memory and in the datastore. *)
Theorem Publish_announce_failure_keeps_local_state env adv e c e1 p err :
  PublishLocal lib env adv e = Done c e1 ->
  publisher e = Some p ->
  UpdateRoot env p c = Err err ->
  Publish lib env adv e = Failed err e1 /\
  blocks e1 !! c = Some (MetaNode adv) /\
  latestMeta e1 = c /\
  ds e1 !! dsLatestMetaKey = Some (RawBytes (Bytes c)) /\
  pushList e1 = (pushList e ++ [c])%list /\
  ds e1 !! dsPushedCidListKey = Some (JsonCidList (pushList e ++ [c])).
Proof.
  intros Hlocal Hpub Hannounce.
  destruct (PublishLocal_Done _ _ _ _ _ Hlocal) as (_ & _ & ->).
  split.
  - unfold Publish. unfold_M. rewrite Hlocal. simpl. rewrite Hpub, Hannounce. reflexivity.
  - destruct keys_distinct as (Hlp & _ & _).
    simpl. rewrite lookup_insert_eq, lookup_insert_ne, !lookup_insert_eq by done.
    repeat split; reflexivity.
Qed.

(** [C10] With a nil publisher, a [Publish] whose local part succeeds
    returns the new content id, and the pending set is as before the call, in
    memory and in its persisted snapshot. *)
Theorem Publish_nil_publisher_leaves_pending env adv e c e1 :
  publisher e = None ->
  PublishLocal lib env adv e = Done c e1 ->
  Publish lib env adv e = Done c e1 /\
  checkList e1 = checkList e /\
  ds e1 !! dsCheckCidListKey = ds e !! dsCheckCidListKey /\
  persisted_checkList e1 = persisted_checkList e.
Proof.
  intros Hpub Hlocal.
  destruct (PublishLocal_Done _ _ _ _ _ Hlocal) as (_ & _ & He1).
  assert (Hds : ds e1 !! dsCheckCidListKey = ds e !! dsCheckCidListKey).
  { destruct keys_distinct as (_ & Hlc & Hpc). subst e1. simpl.
    rewrite !lookup_insert_ne by done. reflexivity. }
  split; [|split; [|split]].
  - unfold Publish. unfold_M. rewrite Hlocal. simpl.
    subst e1. simpl. rewrite Hpub. reflexivity.
  - subst e1. reflexivity.
  - exact Hds.
  - unfold persisted_checkList. rewrite Hds. reflexivity.
Qed.

(** A publisher of kind [NoPublisher] is nil, and so is the publisher of an
    engine that was made and not started. *)
Lemma newPublisher_NoPublisher env e :
  pubKind e = NoPublisher -> newPublisher env e = Ok None.
Proof. intros H. unfold newPublisher. rewrite H. reflexivity. Qed.

Lemma New_publisher_nil env kind d blk e :
  New env kind d blk = Ok e -> publisher e = None.
Proof.
  unfold New, initInfo. intros H.
  repeat case_match; simplify_eq/=; reflexivity.
Qed.

Lemma getLatestMetaCid_persisted env e c :
  ds e !! dsLatestMetaKey = Some (RawBytes (Bytes c)) ->
  c <> Undef ->
  get_fault env dsLatestMetaKey = None ->
  getLatestMetaCid env e = Ok c.
Proof.
  intros Hds Hc Hget. unfold getLatestMetaCid, ds_Get.
  rewrite Hget, Hds. apply CidFromBytes_Bytes, Hc.
Qed.

(** [C9] With a nil publisher (the kind [NoPublisher], or an engine not
    started) and a latest pointer in the datastore, [PublishLatest] calls
    [UpdateRoot] on the nil publisher and panics. *)
Theorem PublishLatest_nil_publisher_panics env e c :
  publisher e = None ->
  ds e !! dsLatestMetaKey = Some (RawBytes (Bytes c)) ->
  c <> Undef ->
  get_fault env dsLatestMetaKey = None ->
  PublishLatest env e = Panicked e.
Proof.
  intros Hpub Hds Hc Hget. unfold PublishLatest. unfold_M.
  rewrite (getLatestMetaCid_persisted _ _ _ Hds Hc Hget).
  unfold Equals. rewrite bool_decide_eq_false_2 by exact Hc.
  rewrite Hpub. reflexivity.
Qed.

(** [C6] [PublishLatest] creates no advertisement and adds nothing to the
    pending set: link system, datastore, pointer, history and pending set
    are as before, whatever the outcome.  Without a latest pointer it fails;
    with one, and a publisher that accepts it, it announces that pointer and
    returns it. *)
Theorem PublishLatest_reannounces_only env e :
  let o := PublishLatest env e in
  (blocks (state_of o) = blocks e /\ ds (state_of o) = ds e /\
   latestMeta (state_of o) = latestMeta e /\ pushList (state_of o) = pushList e /\
   checkList (state_of o) = checkList e) /\
  (ds e !! dsLatestMetaKey = None -> exists err, o = Failed err e) /\
  (getLatestMetaCid env e = Ok Undef ->
   o = Failed (Errorf "no pushed metadata to announce, skip announce") e) /\
  (forall c p,
     getLatestMetaCid env e = Ok c -> c <> Undef ->
     publisher e = Some p -> update_root_fault env c = None ->
     o = Done c (set_publisher
                   (Some (mkPublisher c (pub_announced p ++ [c]) (pub_closed p))) e)).
Proof.
  simpl. repeat split.
  1-5: unfold PublishLatest, UpdateRoot; unfold_M;
       repeat case_match; simplify_eq/=; reflexivity.
  - intros Hnone. unfold PublishLatest, getLatestMetaCid, ds_Get. unfold_M.
    rewrite Hnone. destruct (get_fault env dsLatestMetaKey) as [[]|]; simpl; eauto.
  - intros Hundef. unfold PublishLatest. unfold_M. rewrite Hundef. reflexivity.
  - intros c p Hc Hne Hpub Hok. unfold PublishLatest, UpdateRoot. unfold_M.
    rewrite Hc. simpl. unfold Equals. rewrite bool_decide_eq_false_2 by exact Hne.
    rewrite Hpub, Hok. reflexivity.
Qed.

End Properties.

(** * The properties on the concrete setting *)

(** [C1] The remote peer sends one block and the traversal then fails:
    [Sync] returns the one id received and no error. *)
Theorem Sync_drops_walk_error :
  (remote_walk Fixture.walk_breaks Fixture.cid_hello
     (LegSelector (RecursionLimitDepth 999999) None)).2 = Some (ErrExternal "stream reset") /\
  exists e',
    Sync Fixture.lib Fixture.walk_breaks (cid_String Fixture.lib Fixture.cid_hello) 0
      EmptyString (Fixture.started NoPublisher) = Done [Fixture.cid_hello] e'.
Proof. split; [reflexivity|]. eexists. vm_compute. reflexivity. Qed.

(** [C3] One id is pending and the index answers 200 with a body without
    [Data]: the round of the loop panics. *)
Theorem missing_inclusion_data_panics :
  checkList (Fixture.published DataTransferPublisher) = {[ "bad(hello<-nil)" ]} /\
  runCheck_tick Fixture.index_no_data (Fixture.published DataTransferPublisher) =
  Panicked (Fixture.published DataTransferPublisher).
Proof. split; vm_compute; reflexivity. Qed.

(** [C2] (the claim as stated fails) One id is pending and persisted; the
    index confirms it.  After the round the pending set is empty in memory
    and the store still holds the confirmed id. *)
Lemma emptied_pending_not_persisted :
  runCheck_tick Fixture.index_confirms (Fixture.published DataTransferPublisher) =
    Done tt Fixture.confirmed /\
  checkList Fixture.confirmed = ∅ /\
  persisted_checkList Fixture.confirmed = Some {[ "bad(hello<-nil)" ]} /\
  persisted_checkList Fixture.confirmed <> Some (checkList Fixture.confirmed).
Proof.
  repeat split; try (vm_compute; reflexivity).
  vm_compute. discriminate.
Qed.

Lemma pending_persisted_unless_empty_witness :
  persisted_checkList (Fixture.published DataTransferPublisher) =
    Some (checkList (Fixture.published DataTransferPublisher)) /\
  ds Fixture.confirmed = ds (Fixture.published DataTransferPublisher).
Proof.
  destruct (pending_persisted_unless_empty Fixture.lib) as [Hpublish Htick].
  split.
  - apply (Hpublish Fixture.quiet
             (mkMetadata None "12D3KooWprovider" (BytesNode Fixture.hello) [])
             (Fixture.started DataTransferPublisher) Fixture.cid_hello
             (Fixture.published DataTransferPublisher) (mkPublisher Undef [] false));
      vm_compute; reflexivity.
  - apply (Htick Fixture.index_confirms (Fixture.published DataTransferPublisher)
             Fixture.confirmed); vm_compute; reflexivity.
Defined.

Lemma Publish_announce_failure_witness :
  Publish Fixture.lib Fixture.announce_fails Fixture.ad_hello
    (Fixture.started DataTransferPublisher) =
  Failed (ErrExternal "pubsub: topic closed")
    (locally_published Fixture.ad_hello Fixture.cid_hello
       (Fixture.started DataTransferPublisher)).
Proof.
  apply (Publish_announce_failure_keeps_local_state Fixture.lib Fixture.announce_fails
           Fixture.ad_hello (Fixture.started DataTransferPublisher) Fixture.cid_hello
           (locally_published Fixture.ad_hello Fixture.cid_hello
              (Fixture.started DataTransferPublisher))
           (mkPublisher Undef [] false) (ErrExternal "pubsub: topic closed"));
    vm_compute; reflexivity.
Defined.

Lemma Publish_nil_publisher_witness :
  Publish Fixture.lib Fixture.quiet Fixture.ad_hello (Fixture.started NoPublisher) =
  Done Fixture.cid_hello
    (locally_published Fixture.ad_hello Fixture.cid_hello (Fixture.started NoPublisher)).
Proof.
  apply (Publish_nil_publisher_leaves_pending Fixture.lib Fixture.quiet Fixture.ad_hello
           (Fixture.started NoPublisher) Fixture.cid_hello
           (locally_published Fixture.ad_hello Fixture.cid_hello (Fixture.started NoPublisher)));
    vm_compute; reflexivity.
Defined.

Lemma PublishLatest_nil_publisher_witness :
  PublishLatest Fixture.quiet (Fixture.published NoPublisher) =
  Panicked (Fixture.published NoPublisher).
Proof.
  apply (PublishLatest_nil_publisher_panics Fixture.quiet (Fixture.published NoPublisher)
           Fixture.cid_hello); try (vm_compute; reflexivity).
  discriminate.
Defined.

Lemma PublishLatest_reannounces_witness :
  (exists err, PublishLatest Fixture.quiet (Fixture.fresh DataTransferPublisher) =
               Failed err (Fixture.fresh DataTransferPublisher)) /\
  PublishLatest Fixture.quiet (Fixture.published DataTransferPublisher) =
  Done Fixture.cid_hello
    (set_publisher
       (Some (mkPublisher Fixture.cid_hello [Fixture.cid_hello; Fixture.cid_hello] false))
       (Fixture.published DataTransferPublisher)).
Proof.
  split.
  - apply (PublishLatest_reannounces_only Fixture.quiet (Fixture.fresh DataTransferPublisher)).
    reflexivity.
  - destruct (PublishLatest_reannounces_only Fixture.quiet
                (Fixture.published DataTransferPublisher)) as (_ & _ & _ & Hannounce).
    apply (Hannounce Fixture.cid_hello
             (mkPublisher Fixture.cid_hello [Fixture.cid_hello] false));
      try (vm_compute; reflexivity).
    discriminate.
Defined.

Lemma CatCid_remote_fallback_witness :
  CatCid Fixture.lib Fixture.peer_serves_hello Fixture.cid_hello (Fixture.fresh NoPublisher) =
  Done Fixture.hello
    (set_blocks {[ Fixture.cid_hello := MetaNode Fixture.ad_hello ]} (Fixture.fresh NoPublisher)) /\
  CatCid Fixture.lib Fixture.peer_serves_hello Fixture.cid_world (Fixture.fresh NoPublisher) =
  Failed (Errorf "sync node dismatched cid")
    (set_blocks {[ Fixture.cid_hello := MetaNode Fixture.ad_hello ]} (Fixture.fresh NoPublisher)).
Proof.
  split.
  - destruct (CatCid_remote_fallback Fixture.lib Fixture.peer_serves_hello Fixture.cid_hello
                (Fixture.fresh NoPublisher) eq_refl eq_refl eq_refl)
      as (_ & _ & _ & _ & Hserved).
    rewrite (Hserved (MetaNode Fixture.ad_hello) Fixture.ad_hello)
      by (vm_compute; reflexivity).
    vm_compute. reflexivity.
  - destruct (CatCid_remote_fallback Fixture.lib Fixture.peer_serves_hello Fixture.cid_world
                (Fixture.fresh NoPublisher) eq_refl eq_refl eq_refl)
      as (_ & _ & _ & Hother & _).
    rewrite (Hother Fixture.cid_hello) by (vm_compute; reflexivity || discriminate).
    vm_compute. reflexivity.
Defined.

Lemma pending_within_history_witness :
  pending_pushed Fixture.lib (Fixture.published DataTransferPublisher) /\
  pushList (Fixture.fresh DataTransferPublisher) `prefix_of`
    pushList (Fixture.published DataTransferPublisher) /\
  (forall c, c ∈ pushList (Fixture.fresh DataTransferPublisher) ->
             c ∈ pushList (Fixture.published DataTransferPublisher)).
Proof.
  apply (pending_within_history Fixture.lib).
  - apply (reachable_New Fixture.lib Fixture.quiet DataTransferPublisher ∅). reflexivity.
  - apply (rtc_l _ _ (Fixture.started DataTransferPublisher)).
    + exists Fixture.quiet, OpStart. vm_compute. reflexivity.
    + apply rtc_once. exists Fixture.quiet, (OpPublishBytesData Fixture.hello).
      vm_compute. reflexivity.
Defined.

Lemma publishes_chain_integrity_witness :
  Fixture.cid_world <> Undef /\
  latestMeta (Fixture.published_twice NoPublisher) = Fixture.cid_world /\
  exists adv,
    blocks (Fixture.published_twice NoPublisher) !! Fixture.cid_world = Some (MetaNode adv) /\
    exists c' ek,
      [(Fixture.cid_hello, Fixture.published NoPublisher);
       (Fixture.cid_world, Fixture.published_twice NoPublisher)] !! 0 = Some (c', ek) /\
      PreviousID adv = Some c' /\ latestMeta ek = c'.
Proof.
  apply (fun Hrun Hn =>
           publishes_chain_integrity Fixture.lib
             [(Fixture.quiet, Fixture.hello); (Fixture.quiet, Fixture.world)]
             (Fixture.started NoPublisher)
             [(Fixture.cid_hello, Fixture.published NoPublisher);
              (Fixture.cid_world, Fixture.published_twice NoPublisher)]
             eq_refl Hrun 1 Fixture.cid_world (Fixture.published_twice NoPublisher) Hn);
    vm_compute; reflexivity.
Defined.

(** * Further properties of the engine *)

Section More.

Variable lib : Lib.

Ltac unfold_M :=
  unfold bind, wrapping, lift, ret, fail, panic, gets, modify in *.

(** ** Construction and restart *)

(** [New] over a datastore that holds none of the three records: the
    absent keys are no errors, the engine begins with an undefined pointer,
    an empty history and an empty pending set, and no publisher. *)
Theorem New_absent_records env kind d blk :
  d !! dsLatestMetaKey = None ->
  d !! dsPushedCidListKey = None ->
  d !! dsCheckCidListKey = None ->
  (forall key, get_fault env key = None \/ get_fault env key = Some ErrNotFound) ->
  New env kind d blk = Ok (mkEngine kind d blk None Undef [] ∅ false).
Proof.
  intros Hl Hp Hc Hget. unfold New, initInfo, getLatestMetaCid, GetPushedList, GetCheckList, ds_Get.
  simpl. rewrite Hl, Hp, Hc.
  destruct (Hget dsLatestMetaKey) as [-> | ->];
    destruct (Hget dsPushedCidListKey) as [-> | ->];
    destruct (Hget dsCheckCidListKey) as [-> | ->]; reflexivity.
Qed.

(** A read of one of the three records that fails otherwise than with
    NotFound makes [New] fail. *)
Theorem New_read_error env kind d blk key err :
  key = dsLatestMetaKey \/ key = dsPushedCidListKey \/ key = dsCheckCidListKey ->
  get_fault env key = Some err ->
  err <> ErrNotFound ->
  exists err', New env kind d blk = Err err'.
Proof.
  intros Hkey Hfault Hne.
  unfold New, initInfo, getLatestMetaCid, GetPushedList, GetCheckList, ds_Get. simpl.
  destruct Hkey as [-> | [-> | ->]]; rewrite ?Hfault;
    repeat (case_match; simplify_eq/=; eauto).
Qed.

(** Restart after a publish through a publisher: [New] over the datastore
    the publish left reads back the pointer, the history and the pending set
    the engine held in memory. *)
Theorem New_after_Publish env adv e c e' p env' kind blk :
  Publish lib env adv e = Done c e' ->
  publisher e = Some p ->
  (forall key, get_fault env' key = None) ->
  New env' kind (ds e') blk =
  Ok (mkEngine kind (ds e') blk None (latestMeta e') (pushList e') (checkList e') false).
Proof.
  intros Hpub Hp Hget.
  destruct (Publish_Done _ _ _ _ _ _ Hpub) as (_ & _ & Hne & He').
  rewrite Hp in He'. destruct He' as (_ & _ & ->).
  destruct keys_distinct as (Hlp & Hlc & Hpc).
  unfold New, initInfo, getLatestMetaCid, GetPushedList, GetCheckList, ds_Get. simpl.
  rewrite !Hget.
  rewrite lookup_insert_ne, lookup_insert_ne, lookup_insert_eq by done.
  rewrite (CidFromBytes_Bytes _ Hne). simpl.
  rewrite lookup_insert_ne, lookup_insert_eq by done. simpl.
  rewrite lookup_insert_eq. reflexivity.
Qed.

(** ** Start *)

(** [Start] of an engine of kind [NoPublisher] whose datastore holds a
    latest pointer calls [SetRoot] on the nil publisher and panics. *)
Theorem Start_NoPublisher_with_latest_panics env e c :
  pubKind e = NoPublisher ->
  ds e !! dsLatestMetaKey = Some (RawBytes (Bytes c)) ->
  c <> Undef ->
  get_fault env dsLatestMetaKey = None ->
  Start env e = Panicked (set_publisher None e).
Proof.
  intros Hkind Hds Hc Hget. unfold Start, newPublisher. rewrite Hkind.
  rewrite (getLatestMetaCid_persisted env (set_publisher None e) c Hds Hc Hget).
  rewrite bool_decide_eq_true_2 by exact Hc. reflexivity.
Qed.

(** [Start] with a gossip or HTTP publisher: the publisher is made, its root
    is the persisted latest pointer (undefined when there is none), and
    nothing is announced. *)
Theorem Start_sets_root_silently env e c :
  pubKind e = DataTransferPublisher \/ pubKind e = HttpPublisher ->
  new_publisher_fault env = None ->
  getLatestMetaCid env e = Ok c ->
  (c <> Undef -> set_root_fault env c = None) ->
  Start env e = Done tt (set_publisher (Some (mkPublisher c [] false)) e).
Proof.
  intros Hkind Hnew Hlatest Hset. unfold Start, newPublisher, SetRoot.
  assert (Hl : getLatestMetaCid env (set_publisher (Some (mkPublisher Undef [] false)) e) = Ok c)
    by exact Hlatest.
  destruct Hkind as [-> | ->]; rewrite Hnew, Hl; simpl;
    (case_bool_decide as Hc; [rewrite (Hset Hc); reflexivity|]);
    subst c; reflexivity.
Qed.

(** An unknown publisher kind is refused by [Start], which leaves the
    engine without a publisher. *)
Theorem Start_unknown_kind env e name :
  pubKind e = OtherPublisher name ->
  Start env e = Failed (Errorf "unknown publisher kind") (set_publisher None e).
Proof. intros Hkind. unfold Start, newPublisher. rewrite Hkind. reflexivity. Qed.

(** ** Remote sync *)

Lemma store_received_notin received : forall (b : gmap Cid Node) k,
  k ∉ received.*1 -> store_received received b !! k = b !! k.
Proof.
  induction received as [|[c n] rest IH]; intros b k Hk; [reflexivity|].
  rewrite fmap_cons, not_elem_of_cons in Hk. destruct Hk as [Hne Hrest].
  change (store_received rest (<[c := n]> b) !! k = b !! k).
  rewrite (IH _ _ Hrest). apply lookup_insert_ne. simpl in Hne. congruence.
Qed.

Lemma store_received_in received : forall (b : gmap Cid Node) k,
  k ∈ received.*1 -> is_Some (store_received received b !! k).
Proof.
  induction received as [|[c n] rest IH]; intros b k Hk.
  - simpl in Hk. apply elem_of_nil in Hk. contradiction.
  - change (is_Some (store_received rest (<[c := n]> b) !! k)).
    destruct (decide (k ∈ rest.*1)) as [Hin|Hout]; [apply IH, Hin|].
    rewrite (store_received_notin _ _ _ Hout).
    rewrite fmap_cons, elem_of_cons in Hk. destruct Hk as [-> | Hin]; [|contradiction].
    simpl. rewrite lookup_insert_eq. eauto.
Qed.

(** The selector [Sync] builds.  Without an end id the traversal is limited
    to the given depth, and to 999999 when the depth is 0; with an end id it
    stops at that id, limited to the given depth, and with no depth limit at
    all when the depth is 0. *)
Theorem Sync_selector env c syncCid depth endCidStr e :
  cid_Decode lib c = Ok syncCid ->
  new_sync_fault env = None ->
  (endCidStr = EmptyString ->
   Sync lib env c depth endCidStr e =
   synced env syncCid
     (LegSelector (RecursionLimitDepth (if (depth =? 0)%Z then 999999 else depth)) None) e) /\
  (forall endCid,
     endCidStr <> EmptyString -> cid_Decode lib endCidStr = Ok endCid -> endCid <> Undef ->
     Sync lib env c depth endCidStr e =
     synced env syncCid
       (LegSelector (if (depth =? 0)%Z then RecursionLimitNone else RecursionLimitDepth depth)
          (Some endCid)) e).
Proof.
  intros Hdec Hsync. split.
  - intros ->. unfold Sync, synced. unfold_M. rewrite Hdec, Hsync. simpl.
    destruct (depth =? 0)%Z; reflexivity.
  - intros endCid Hne Hend Hdef. unfold Sync, synced. unfold_M. rewrite Hdec. simpl.
    rewrite bool_decide_eq_true_2 by exact Hne. rewrite Hend, Hsync. simpl.
    apply Defined_true in Hdef. rewrite Hdef, orb_true_r.
    destruct (depth =? 0)%Z; reflexivity.
Qed.



(** ** The remote index *)

(** A response is accepted exactly when its status is 200. *)
Theorem handleResError_Ok_iff {B} (res : HttpResult B) (body : B) :
  handleResError res = Ok body <-> res = Response 200 body.
Proof.
  split.
  - unfold handleResError. destruct res as [err|status b]; [discriminate|].
    destruct (399 <? status)%Z; [discriminate|].
    destruct (status =? 200)%Z eqn:Heq; simpl; [|discriminate].
    apply Z.eqb_eq in Heq. intros [= ->]. subst. reflexivity.
  - intros ->. reflexivity.
Qed.

(** [SyncWithProvider] returns without error only if the index answered the
    head query with 200 and a body that parses, and the sync from the head
    it names returned; the engine is then as that sync left it. *)
Theorem SyncWithProvider_Done env provider depth endCid e e' :
  SyncWithProvider lib env provider depth endCid e = Done tt e' ->
  exists code message dataCid res,
    head_query env provider = Response 200 (HeadJson code message dataCid) /\
    Sync lib env dataCid depth endCid e = Done res e'.
Proof.
  unfold SyncWithProvider. unfold_M. intros H.
  destruct (handleResError (head_query env provider)) as [body|] eqn:Hhead;
    simpl in H; [|discriminate].
  apply handleResError_Ok_iff in Hhead.
  destruct body as [|code message dataCid]; [discriminate|].
  destruct (Sync lib env dataCid depth endCid e) as [res e1| |] eqn:Hsync;
    simplify_eq/=. eauto 10.
Qed.

End More.

Section Reconciliation.

Variable lib : Lib.

Ltac unfold_M :=
  unfold bind, wrapping, lift, ret, fail, panic, gets, modify in *.

(** ** The reconciliation round *)

Lemma elem_of_insert_ranked rank k l x :
  x ∈ insert_ranked rank k l <-> x = k \/ x ∈ l.
Proof.
  induction l as [|y r IH]; simpl.
  - rewrite list_elem_of_singleton, elem_of_nil. tauto.
  - destruct (rank k <=? rank y)%nat; rewrite !elem_of_cons; [tauto|].
    rewrite IH. tauto.
Qed.

Lemma elem_of_range_order env (s : gset string) k : k ∈ range_order env s <-> k ∈ s.
Proof.
  unfold range_order. rewrite <- elem_of_elements.
  induction (elements s) as [|y r IH]; simpl; [reflexivity|].
  rewrite elem_of_insert_ranked, IH, elem_of_cons. reflexivity.
Qed.

Lemma confirmed_iff env k :
  confirmed env k <->
  exists code message,
    handleResError (inclusion_query env k) =
    Ok (InclusionJson code message (Some (mkMetaInclusion true))).
Proof.
  unfold confirmed. split; intros (code & message & H); exists code, message;
    apply handleResError_Ok_iff, H.
Qed.

Lemma checkSyncStatus_removes_confirmed env ids : forall e,
  checkList (state_of (checkSyncStatus env ids e)) ⊆ checkList e /\
  forall k, k ∈ checkList e -> k ∉ checkList (state_of (checkSyncStatus env ids e)) ->
    confirmed env k.
Proof.
  induction ids as [|c rest IH]; intros e; simpl.
  - split; [reflexivity|]. intros k Hin Hout. contradiction.
  - destruct (closing e); simpl; [split; [reflexivity|]; intros k Hin Hout; contradiction|].
    destruct (handleResError (inclusion_query env c))
      as [[|code message [[confirmedFlag]|]]|] eqn:Hq; simpl; try apply IH.
    + destruct confirmedFlag; [|apply IH].
      destruct (IH (set_checkList (checkList e ∖ {[c]}) e)) as [Hsub Hconf]. simpl in *.
      split; [set_solver|]. intros k Hin Hout.
      destruct (decide (k = c)) as [->|Hne].
      * apply confirmed_iff. eauto.
      * apply Hconf; [set_solver | exact Hout].
    + split; [reflexivity|]. intros k Hin Hout. contradiction.
Qed.

(** A round of the loop only removes ids from the pending set, and only
    ids for which the index answered 200 with [InPando] set; this holds also
    for the state a panicking round leaves. *)
Theorem tick_removes_only_confirmed env e :
  checkList (state_of (runCheck_tick env e)) ⊆ checkList e /\
  forall k, k ∈ checkList e -> k ∉ checkList (state_of (runCheck_tick env e)) ->
    confirmed env k.
Proof.
  pose proof (checkSyncStatus_removes_confirmed env (range_order env (checkList e)) e) as H.
  unfold runCheck_tick. case_bool_decide.
  { split; [reflexivity|]. intros k Hin Hout. contradiction. }
  assert (Hpersist : forall e1,
    checkList (state_of (match persistCheckList env e1 with
                         | Done _ e2 | Failed _ e2 => Done tt e2
                         | Panicked e2 => Panicked e2
                         end)) = checkList e1).
  { intros e1. unfold persistCheckList, ds_Put.
    repeat (case_match || case_bool_decide); simplify_eq/=; reflexivity. }
  destruct (checkSyncStatus env _ e) as [[] e1|err e1|e1]; simpl in H;
    rewrite ?Hpersist; exact H.
Qed.

Lemma checkSyncStatus_completes env ids : forall e,
  closing e = false ->
  (forall k, k ∈ ids -> forall code message,
     inclusion_query env k <> Response 200 (InclusionJson code message None)) ->
  exists s, checkSyncStatus env ids e = Done tt (set_checkList s e) /\
    forall k, k ∈ s <-> k ∈ checkList e /\ ~ (k ∈ ids /\ confirmed env k).
Proof.
  induction ids as [|c rest IH]; intros e Hopen Hdata; simpl.
  - exists (checkList e). split; [destruct e; reflexivity|].
    intros k. rewrite elem_of_nil. tauto.
  - rewrite Hopen.
    assert (Hrest : forall k, k ∈ rest -> forall code message,
              inclusion_query env k <> Response 200 (InclusionJson code message None)).
    { intros k Hk. apply Hdata. right. exact Hk. }
    assert (Hskip : ~ confirmed env c ->
              exists s, checkSyncStatus env rest e = Done tt (set_checkList s e) /\
                forall k, k ∈ s <-> k ∈ checkList e /\ ~ (k ∈ c :: rest /\ confirmed env k)).
    { intros Hno. destruct (IH e Hopen Hrest) as (s & Hrun & Hs).
      exists s. split; [exact Hrun|]. intros k. rewrite Hs, elem_of_cons.
      split; intros [Hin Hn]; (split; [exact Hin|]); intros [Hk Hc]; apply Hn.
      - destruct Hk as [->|Hk]; [contradiction|]. split; assumption.
      - split; [right; exact Hk | exact Hc]. }
    destruct (handleResError (inclusion_query env c))
      as [[|code message [[confirmedFlag]|]]|] eqn:Hq; simpl.
    + apply Hskip. rewrite confirmed_iff, Hq. intros (? & ? & [=]).
    + destruct confirmedFlag.
      * destruct (IH (set_checkList (checkList e ∖ {[c]}) e) Hopen Hrest) as (s & Hrun & Hs).
        exists s. split; [exact Hrun|]. intros k. rewrite Hs. simpl.
        rewrite elem_of_difference, elem_of_singleton, elem_of_cons.
        assert (Hc : confirmed env c) by (apply confirmed_iff; eauto).
        split.
        -- intros [[Hin Hne] Hn]. split; [exact Hin|].
           intros [[->|Hk] Hck]; [contradiction | apply Hn; split; assumption].
        -- intros [Hin Hn]. split; [split; [exact Hin|]|].
           ++ intros ->. apply Hn. split; [left; reflexivity | exact Hc].
           ++ intros [Hk Hck]. apply Hn. split; [right; exact Hk | exact Hck].
      * apply Hskip. rewrite confirmed_iff, Hq. intros (? & ? & [=]).
    + apply handleResError_Ok_iff in Hq. exfalso.
      apply (Hdata c (list_elem_of_here _ _) code message Hq).
    + apply Hskip. rewrite confirmed_iff, Hq. intros (? & ? & [=]).
Qed.

(** While the engine is not shut down and no answer lacks its [Data], a
    round returns, and it removes exactly the pending ids the index
    confirms: ids whose query fails or is not confirmed stay pending. *)
Theorem tick_removes_all_confirmed env e :
  closing e = false ->
  (forall k, k ∈ checkList e -> forall code message,
     inclusion_query env k <> Response 200 (InclusionJson code message None)) ->
  exists e', runCheck_tick env e = Done tt e' /\
    forall k, k ∈ checkList e' <-> k ∈ checkList e /\ ~ confirmed env k.
Proof.
  intros Hopen Hdata. unfold runCheck_tick. case_bool_decide as Hsize.
  { exists e. split; [reflexivity|]. apply size_empty_inv in Hsize. set_solver. }
  destruct (checkSyncStatus_completes env (range_order env (checkList e)) e Hopen)
    as (s & -> & Hs).
  { intros k Hk. apply Hdata. apply elem_of_range_order in Hk. exact Hk. }
  assert (Hiff : forall k, k ∈ s <-> k ∈ checkList e /\ ~ confirmed env k).
  { intros k. rewrite Hs, elem_of_range_order. tauto. }
  unfold persistCheckList, ds_Put. simpl.
  repeat (case_match || case_bool_decide); simplify_eq/=; eauto.
Qed.

(** ** Shutdown *)

(** [Shutdown] of a running engine closes the loop's channel whether or not
    closing the publisher fails; it fails exactly when there is a publisher
    whose [Close] fails.  The records and the datastore are untouched. *)
Theorem Shutdown_closes env e :
  closing e = false ->
  exists e1, survives (Shutdown env e) = Some e1 /\
    closing e1 = true /\
    ds e1 = ds e /\ latestMeta e1 = latestMeta e /\
    pushList e1 = pushList e /\ checkList e1 = checkList e /\
    (Shutdown env e = Done tt e1 <-> publisher e = None \/ close_fault env = None).
Proof.
  intros Hopen. unfold Shutdown.
  destruct (publisher e) as [p|] eqn:Hp; [destruct (close_fault env) as [err|] eqn:Hc|];
    simpl; rewrite Hopen; eexists; (split; [reflexivity|]); simpl;
    repeat (split; [reflexivity|]); split; try reflexivity; intros H; try discriminate;
    destruct H; discriminate || eauto.
Qed.

(** A second [Shutdown] panics: the channel is already closed. *)
Theorem Shutdown_twice_panics env e e1 env' :
  survives (Shutdown env e) = Some e1 ->
  exists e2, Shutdown env' e1 = Panicked e2.
Proof.
  unfold Shutdown. intros H.
  assert (Hclosed : closing e1 = true).
  { destruct (publisher e); simpl in H; destruct (closing e); simpl in H;
      try discriminate; repeat case_match; simplify_eq/=; reflexivity. }
  destruct (publisher e1); simpl; rewrite Hclosed; eauto.
Qed.

(** After [Shutdown] a round of the loop asks the index nothing: it
    returns with the pending set as it was, whatever the index would say. *)
Theorem tick_after_Shutdown env e e1 env' :
  survives (Shutdown env e) = Some e1 ->
  exists e2, runCheck_tick env' e1 = Done tt e2 /\ checkList e2 = checkList e1.
Proof.
  unfold Shutdown. intros H.
  assert (Hclosed : closing e1 = true).
  { destruct (publisher e); simpl in H; destruct (closing e); simpl in H;
      try discriminate; repeat case_match; simplify_eq/=; reflexivity. }
  unfold runCheck_tick. case_bool_decide; [eauto|].
  assert (Hstop : forall ids, checkSyncStatus env' ids e1 = Done tt e1).
  { intros [|c rest]; simpl; [reflexivity|]. rewrite Hclosed. reflexivity. }
  rewrite Hstop. unfold persistCheckList, ds_Put.
  repeat (case_match || case_bool_decide); simplify_eq/=; eauto.
Qed.

(** ** Publishing: partial failures and round trips *)

(** When the write of the latest pointer fails, [Publish] fails before any
    announcement; the advertisement is stored and the pointer in memory is
    already the new id, while the datastore, the history and the pending set
    are as before. *)
Theorem Publish_latest_write_failure env adv e err :
  to_node_fault env adv = None ->
  store_fault env (MetaNode adv) = None ->
  link_of lib (MetaNode adv) <> Undef ->
  put_fault env dsLatestMetaKey = Some err ->
  let c := link_of lib (MetaNode adv) in
  Publish lib env adv e =
  Failed (ErrorfWrap "failed to publish advertisement locally"
            (ErrorfWrap "failed to update reference to latest metadata" err))
    (set_latestMeta c (set_blocks (<[c := MetaNode adv]> (blocks e)) e)).
Proof.
  intros Hnode Hstore Hc Hput.
  unfold Publish, PublishLocal, ToNode, lsys_Store, updateLatestMeta, ds_Put. unfold_M.
  rewrite Hnode, Hstore. rewrite bool_decide_eq_false_2 by exact Hc.
  rewrite Hput. reflexivity.
Qed.

(** When the advertisement is announced and the write of the pending set
    then fails, [Publish] returns that error: the id is pending in memory,
    the announcement is made, the pointer and the history are written, and
    the stored pending set is the old one. *)
Theorem Publish_pending_write_failure env adv e c e1 p err :
  PublishLocal lib env adv e = Done c e1 ->
  publisher e = Some p ->
  update_root_fault env c = None ->
  put_fault env dsCheckCidListKey = Some err ->
  exists e', Publish lib env adv e = Failed err e' /\
    checkList e' = {[cid_String lib c]} ∪ checkList e /\
    publisher e' = Some (mkPublisher c (pub_announced p ++ [c]) (pub_closed p)) /\
    ds e' = ds e1 /\
    ds e' !! dsCheckCidListKey = ds e !! dsCheckCidListKey.
Proof.
  intros Hlocal Hp Hup Hput.
  destruct (PublishLocal_Done _ _ _ _ _ _ Hlocal) as (_ & _ & ->).
  unfold Publish, UpdateRoot, persistCheckList, ds_Put. unfold_M.
  rewrite Hlocal. simpl. rewrite Hp, Hup. simpl.
  case_bool_decide as Hsize.
  { apply size_empty_inv in Hsize. set_solver. }
  rewrite Hput. eexists. split; [reflexivity|]. simpl.
  destruct keys_distinct as (_ & Hlc & Hpc).
  rewrite !lookup_insert_ne by done. done.
Qed.

(** A local hit: [CatCid] of an id whose advertisement is in the storage
    returns its payload, the bytes or else the dagjson encoding, and leaves
    the engine as it is. *)
Theorem CatCid_local_hit env c e m :
  blocks e !! c = Some (MetaNode m) ->
  load_fault env LocalLookup c = None ->
  CatCid lib env c e =
  match Payload m with
  | BytesNode b => Done b e
  | StructNode d =>
      match dagjson_Encode lib (StructNode d) with
      | Ok buf => Done buf e
      | Err err => Failed err e
      end
  end.
Proof.
  intros Hblk Hload. unfold CatCid, lsys_Load. unfold_M. rewrite Hload, Hblk. simpl.
  destruct (Payload m) as [b|d]; simpl; [reflexivity|].
  destruct (dagjson_Encode lib (StructNode d)); reflexivity.
Qed.

(** Bytes published with [PublishBytesData] are read back by [CatCid] of
    the id that publish returned, without a remote sync. *)
Theorem CatCid_after_PublishBytesData env data e c e' env' :
  PublishBytesData lib env data e = Done c e' ->
  load_fault env' LocalLookup c = None ->
  CatCid lib env' c e' = Done data e'.
Proof.
  intros Hpub Hload.
  destruct (PublishBytesData_Done _ _ _ _ _ _ Hpub) as (adv & _ & Hpay & _ & _ & _ & Hblk & _).
  rewrite (CatCid_local_hit env' c e' adv Hblk Hload), Hpay. reflexivity.
Qed.

(** After a publish through a publisher, [PublishLatest] announces the id
    that publish returned once more. *)
Theorem PublishLatest_after_Publish env adv e c e' p env' :
  Publish lib env adv e = Done c e' ->
  publisher e = Some p ->
  get_fault env' dsLatestMetaKey = None ->
  update_root_fault env' c = None ->
  PublishLatest env' e' =
  Done c (set_publisher
            (Some (mkPublisher c (pub_announced p ++ [c; c]) (pub_closed p))) e').
Proof.
  intros Hpub Hp Hget Hup.
  destruct (Publish_Done _ _ _ _ _ _ Hpub) as (_ & _ & Hne & He').
  rewrite Hp in He'. destruct He' as (_ & _ & ->).
  destruct keys_distinct as (Hlp & Hlc & _).
  unfold PublishLatest, UpdateRoot. unfold_M.
  erewrite getLatestMetaCid_persisted; [| |exact Hne|exact Hget].
  2: { simpl. rewrite lookup_insert_ne, lookup_insert_ne, lookup_insert_eq by done.
       reflexivity. }
  simpl. unfold Equals. rewrite bool_decide_eq_false_2 by exact Hne.
  simpl. rewrite Hup. simpl. rewrite <- app_assoc. reflexivity.
Qed.

(** ** The history is locally readable *)

#[local] Instance keeps_stored_preorder : PreOrder keeps_stored.
Proof.
  split.
  - intros e. split; [reflexivity | auto].
  - intros e1 e2 e3 [Hd12 H12] [Hd23 H23]. split; [etransitivity; eassumption | auto].
Qed.

Lemma stored_same e e' :
  pushList e' = pushList e -> latestMeta e' = latestMeta e ->
  dom (blocks e) ⊆ dom (blocks e') -> keeps_stored e e'.
Proof.
  intros Hp Hl Hd. split; [exact Hd|]. intros [Hpush Hlatest].
  unfold stored_history. rewrite Hp, Hl. split.
  - intros c Hc. apply elem_of_dom, Hd, elem_of_dom, Hpush, Hc.
  - intros Hne. apply elem_of_dom, Hd, elem_of_dom, Hlatest, Hne.
Qed.

Lemma stored_published e e' c n :
  blocks e' = <[c := n]> (blocks e) ->
  latestMeta e' = c \/ latestMeta e' = latestMeta e ->
  pushList e' = pushList e \/ pushList e' = (pushList e ++ [c])%list ->
  keeps_stored e e'.
Proof.
  intros Hb Hl Hp.
  assert (Hd : dom (blocks e) ⊆ dom (blocks e')) by (rewrite Hb, dom_insert_L; set_solver).
  assert (Hc : is_Some (blocks e' !! c)) by (rewrite Hb, lookup_insert_eq; eauto).
  split; [exact Hd|]. intros [Hpush Hlatest]. split.
  - intros k Hk. destruct Hp as [Hp|Hp]; rewrite Hp in Hk.
    + apply elem_of_dom, Hd, elem_of_dom, Hpush, Hk.
    + apply elem_of_app in Hk. destruct Hk as [Hk|Hk].
      * apply elem_of_dom, Hd, elem_of_dom, Hpush, Hk.
      * apply list_elem_of_singleton in Hk. subst k. exact Hc.
  - intros Hne. destruct Hl as [Hl|Hl]; rewrite Hl in *; [exact Hc|].
    apply elem_of_dom, Hd, elem_of_dom, Hlatest, Hne.
Qed.

Ltac same_stored := apply stored_same; simpl; reflexivity.

Lemma PublishLocal_stored env adv : keeps keeps_stored (PublishLocal lib env adv).
Proof.
  intros e.
  unfold PublishLocal, ToNode, lsys_Store, updateLatestMeta, updatePushedList, ds_Put.
  unfold_M.
  destruct (to_node_fault env adv); [same_stored|].
  destruct (store_fault env (MetaNode adv)); [same_stored|].
  case_bool_decide as Hc.
  { eapply stored_published; simpl; [reflexivity | right; reflexivity | left; reflexivity]. }
  destruct (put_fault env dsLatestMetaKey).
  { eapply stored_published; simpl; [reflexivity | left; reflexivity | left; reflexivity]. }
  cbn beta iota.
  case_bool_decide as Hlen.
  { eapply stored_published; simpl; [reflexivity | left; reflexivity | left; reflexivity]. }
  destruct (put_fault env dsPushedCidListKey);
    (eapply stored_published; simpl; [reflexivity | left; reflexivity | right; reflexivity]).
Qed.

Lemma Publish_stored env adv : keeps keeps_stored (Publish lib env adv).
Proof.
  unfold Publish.
  apply keeps_bind; [apply _ | apply keeps_wrapping, PublishLocal_stored |]. intros c.
  apply keeps_bind; [apply _ | apply keeps_gets, _ |]. intros [p|]; [|apply keeps_ret, _].
  destruct (UpdateRoot env p c); [|apply keeps_fail, _].
  apply keeps_bind; [apply _ | apply keeps_modify; intros e; same_stored |]. intros _.
  apply keeps_bind; [apply _ | apply keeps_modify; intros e; same_stored |]. intros _.
  apply keeps_bind; [apply _ | | intros _; apply keeps_ret, _].
  intros e. unfold persistCheckList, ds_Put.
  case_bool_decide; [same_stored|].
  destruct (put_fault env dsCheckCidListKey); same_stored.
Qed.

Lemma store_received_dom received (b : gmap Cid Node) :
  dom b ⊆ dom (store_received received b).
Proof.
  intros k Hk. apply elem_of_dom. apply elem_of_dom in Hk.
  destruct (decide (k ∈ received.*1)) as [Hin|Hout].
  - apply store_received_in, Hin.
  - rewrite (store_received_notin _ _ _ Hout). exact Hk.
Qed.

Lemma Sync_stored env c depth endCidStr : keeps keeps_stored (Sync lib env c depth endCidStr).
Proof.
  unfold Sync.
  apply keeps_bind; [apply _ | apply keeps_lift, _ |]. intros syncCid.
  apply keeps_bind; [apply _ | |].
  { case_bool_decide; [apply keeps_lift, _ | apply keeps_ret, _]. }
  intros endCid. destruct (new_sync_fault env); [apply keeps_fail, _|].
  apply keeps_bind; [apply _ | | intros _; apply keeps_ret, _].
  apply keeps_modify. intros e. apply stored_same; simpl; try reflexivity.
  apply store_received_dom.
Qed.

Lemma CatCid_stored env c : keeps keeps_stored (CatCid lib env c).
Proof.
  unfold CatCid.
  apply keeps_bind; [apply _ | |].
  - intros e. destruct (lsys_Load env LocalLookup c e) as [n|[]]; simpl;
      try reflexivity.
    revert e. unfold catRemote.
    apply keeps_bind; [apply _ | apply Sync_stored |]. intros syncCids.
    destruct (negb _); [apply keeps_fail, _|].
    destruct syncCids as [|c0 ?]; [apply keeps_panic, _|].
    destruct (negb _); [apply keeps_fail, _ | apply keeps_reader, _].
  - intros n. apply keeps_bind; [apply _ | apply keeps_lift, _ |]. intros meta.
    destruct (AsBytes _); [apply keeps_ret, _ | apply keeps_lift, _].
Qed.

Lemma run_op_stored env op : keeps keeps_stored (run_op lib env op).
Proof.
  destruct op; intros e; simpl; rewrite ?state_of_forget.
  - unfold Start, newPublisher, SetRoot.
    repeat (case_match || case_bool_decide); simplify_eq/=; same_stored.
  - apply Publish_stored.
  - revert e. unfold PublishBytesData.
    apply keeps_bind; [apply _ | apply keeps_gets, _ |]. intros latest.
    apply keeps_bind; [apply _ | apply keeps_lift, _ |]. intros meta.
    apply Publish_stored.
  - unfold PublishLatest, UpdateRoot. unfold_M.
    repeat (case_match || case_bool_decide); simplify_eq/=; same_stored.
  - apply Sync_stored.
  - revert e. unfold SyncWithProvider.
    apply keeps_bind; [apply _ | apply keeps_lift, _ |]. intros [|? ? dataCid].
    + apply keeps_fail, _.
    + apply keeps_bind; [apply _ | apply Sync_stored |]. intros _. apply keeps_ret, _.
  - apply CatCid_stored.
  - destruct (checkSyncStatus_only_pending env (range_order env (checkList e)) e)
      as (s & _ & Hs).
    unfold runCheck_tick. case_bool_decide; [reflexivity|].
    destruct (checkSyncStatus env _ e) as [[] e1|err e1|e1]; simpl in Hs; subst e1;
      simpl; try same_stored.
    all: unfold persistCheckList, ds_Put; simpl;
      case_bool_decide; [same_stored|];
      destruct (put_fault env dsCheckCidListKey); same_stored.
  - unfold Shutdown.
    repeat (case_match || case_bool_decide); simplify_eq/=; same_stored.
Qed.

(** In every state a process reaches from a fresh engine, each id of the
    push history, and the latest pointer when defined, has a block in the
    local storage. *)
Theorem reachable_stored_history e :
  reachable lib e -> stored_history e.
Proof.
  induction 1 as [env kind blk e Hnew|e e' _ IH (env & op & Hstep)].
  - destruct (New_fresh _ _ _ _ Hnew) as (Hp & _ & Hl). split.
    + intros c. rewrite Hp. intros Hc. apply elem_of_nil in Hc. contradiction.
    + intros Hne. contradiction.
  - pose proof (run_op_stored env op e) as [_ Hkeep].
    destruct (run_op lib env op e); simplify_eq/=; apply Hkeep, IH.
Qed.

(** ** What the datastore holds *)

#[local] Instance keeps_persisted_preorder : PreOrder keeps_persisted.
Proof.
  split.
  - intros e. split; [unfold history_grows; reflexivity | auto].
  - intros e1 e2 e3 [Hg12 H12] [Hg23 H23]. split; [|auto].
    unfold history_grows in *. etransitivity; eassumption.
Qed.

Lemma persisted_sound_grows e e' :
  (forall key, key = dsLatestMetaKey \/ key = dsPushedCidListKey \/ key = dsCheckCidListKey ->
     ds e' !! key = ds e !! key) ->
  history_grows e e' -> keeps_persisted e e'.
Proof.
  intros Hds Hg. split; [exact Hg|]. intros (Hl & Hp & Hc).
  destruct Hg as [ext Hext]. repeat split.
  - intros v. rewrite Hds by auto. intros Hv.
    destruct (Hl v Hv) as (c & -> & Hne & Hin). exists c.
    split; [reflexivity|]. split; [exact Hne|]. rewrite Hext. set_solver.
  - intros v. rewrite Hds by auto. intros Hv.
    destruct (Hp v Hv) as (l & -> & Hpre). exists l. split; [reflexivity|].
    rewrite Hext. apply prefix_app_r, Hpre.
  - intros v. rewrite Hds by auto. apply Hc.
Qed.

Lemma persisted_same e e' :
  ds e' = ds e -> pushList e' = pushList e -> keeps_persisted e e'.
Proof.
  intros Hds Hp. apply persisted_sound_grows.
  - intros key _. rewrite Hds. reflexivity.
  - unfold history_grows. rewrite Hp. reflexivity.
Qed.

Lemma persisted_check_put e e' s :
  ds e' = <[dsCheckCidListKey := JsonStringSet s]> (ds e) ->
  pushList e' = pushList e -> keeps_persisted e e'.
Proof.
  intros Hds Hp. destruct keys_distinct as (_ & Hlc & Hpc).
  split; [unfold history_grows; rewrite Hp; reflexivity|].
  intros (Hl & Hpl & Hc). unfold persisted_sound. rewrite Hds, Hp. repeat split.
  - intros v. rewrite lookup_insert_ne by done. apply Hl.
  - intros v. rewrite lookup_insert_ne by done. apply Hpl.
  - intros v. rewrite lookup_insert_eq. intros [= <-]. eauto.
Qed.

Lemma persisted_published e e' c :
  c <> Undef ->
  pushList e' = (pushList e ++ [c])%list ->
  ds e' = <[dsLatestMetaKey := RawBytes (Bytes c)]> (ds e) \/
  ds e' = <[dsPushedCidListKey := JsonCidList (pushList e ++ [c])]>
            (<[dsLatestMetaKey := RawBytes (Bytes c)]> (ds e)) ->
  keeps_persisted e e'.
Proof.
  intros Hne Hp Hds. destruct keys_distinct as (Hlp & Hlc & Hpc).
  split; [unfold history_grows; rewrite Hp; apply prefix_app_r; reflexivity|].
  intros (Hl & Hpl & Hc). unfold persisted_sound. rewrite Hp.
  assert (Hin : c ∈ (pushList e ++ [c])%list) by set_solver.
  destruct Hds as [-> | ->]; repeat split; intros v.
  - rewrite lookup_insert_eq. intros [= <-]. eauto.
  - rewrite lookup_insert_ne by done. intros Hv.
    destruct (Hpl v Hv) as (l & -> & Hpre). exists l. split; [reflexivity|].
    apply prefix_app_r, Hpre.
  - rewrite lookup_insert_ne by done. apply Hc.
  - rewrite lookup_insert_ne, lookup_insert_eq by done. intros [= <-]. eauto.
  - rewrite lookup_insert_eq. intros [= <-]. eauto.
  - rewrite !lookup_insert_ne by done. apply Hc.
Qed.

Ltac same_persisted := apply persisted_same; simpl; reflexivity.

Lemma PublishLocal_persisted env adv : keeps keeps_persisted (PublishLocal lib env adv).
Proof.
  intros e.
  unfold PublishLocal, ToNode, lsys_Store, updateLatestMeta, updatePushedList, ds_Put.
  unfold_M.
  destruct (to_node_fault env adv); [same_persisted|].
  destruct (store_fault env (MetaNode adv)); [same_persisted|].
  case_bool_decide as Hc; [same_persisted|].
  destruct (put_fault env dsLatestMetaKey); [same_persisted|].
  cbn beta iota.
  case_bool_decide as Hlen.
  { rewrite length_app in Hlen. simpl in Hlen. lia. }
  destruct (put_fault env dsPushedCidListKey);
    (apply (persisted_published _ _ (link_of lib (MetaNode adv)) Hc); simpl;
     [reflexivity | auto]).
Qed.

Lemma Publish_persisted env adv : keeps keeps_persisted (Publish lib env adv).
Proof.
  unfold Publish.
  apply keeps_bind; [apply _ | apply keeps_wrapping, PublishLocal_persisted |]. intros c.
  apply keeps_bind; [apply _ | apply keeps_gets, _ |]. intros [p|]; [|apply keeps_ret, _].
  destruct (UpdateRoot env p c); [|apply keeps_fail, _].
  apply keeps_bind; [apply _ | apply keeps_modify; intros e; same_persisted |]. intros _.
  apply keeps_bind; [apply _ | apply keeps_modify; intros e; same_persisted |]. intros _.
  apply keeps_bind; [apply _ | | intros _; apply keeps_ret, _].
  intros e. unfold persistCheckList, ds_Put.
  case_bool_decide; [same_persisted|].
  destruct (put_fault env dsCheckCidListKey); [same_persisted|].
  eapply persisted_check_put; simpl; reflexivity.
Qed.

Lemma Sync_persisted env c depth endCidStr :
  keeps keeps_persisted (Sync lib env c depth endCidStr).
Proof.
  unfold Sync.
  apply keeps_bind; [apply _ | apply keeps_lift, _ |]. intros syncCid.
  apply keeps_bind; [apply _ | |].
  { case_bool_decide; [apply keeps_lift, _ | apply keeps_ret, _]. }
  intros endCid. destruct (new_sync_fault env); [apply keeps_fail, _|].
  apply keeps_bind; [apply _ | | intros _; apply keeps_ret, _].
  apply keeps_modify. intros e. same_persisted.
Qed.

Lemma CatCid_persisted env c : keeps keeps_persisted (CatCid lib env c).
Proof.
  unfold CatCid.
  apply keeps_bind; [apply _ | |].
  - intros e. destruct (lsys_Load env LocalLookup c e) as [n|[]]; simpl;
      try reflexivity.
    revert e. unfold catRemote.
    apply keeps_bind; [apply _ | apply Sync_persisted |]. intros syncCids.
    destruct (negb _); [apply keeps_fail, _|].
    destruct syncCids as [|c0 ?]; [apply keeps_panic, _|].
    destruct (negb _); [apply keeps_fail, _ | apply keeps_reader, _].
  - intros n. apply keeps_bind; [apply _ | apply keeps_lift, _ |]. intros meta.
    destruct (AsBytes _); [apply keeps_ret, _ | apply keeps_lift, _].
Qed.

Lemma run_op_persisted env op : keeps keeps_persisted (run_op lib env op).
Proof.
  destruct op; intros e; simpl; rewrite ?state_of_forget.
  - unfold Start, newPublisher, SetRoot.
    repeat (case_match || case_bool_decide); simplify_eq/=; same_persisted.
  - apply Publish_persisted.
  - revert e. unfold PublishBytesData.
    apply keeps_bind; [apply _ | apply keeps_gets, _ |]. intros latest.
    apply keeps_bind; [apply _ | apply keeps_lift, _ |]. intros meta.
    apply Publish_persisted.
  - unfold PublishLatest, UpdateRoot. unfold_M.
    repeat (case_match || case_bool_decide); simplify_eq/=; same_persisted.
  - apply Sync_persisted.
  - revert e. unfold SyncWithProvider.
    apply keeps_bind; [apply _ | apply keeps_lift, _ |]. intros [|? ? dataCid].
    + apply keeps_fail, _.
    + apply keeps_bind; [apply _ | apply Sync_persisted |]. intros _. apply keeps_ret, _.
  - apply CatCid_persisted.
  - destruct (checkSyncStatus_only_pending env (range_order env (checkList e)) e)
      as (s & _ & Hs).
    unfold runCheck_tick. case_bool_decide; [reflexivity|].
    destruct (checkSyncStatus env _ e) as [[] e1|err e1|e1]; simpl in Hs; subst e1;
      simpl; try same_persisted.
    all: unfold persistCheckList, ds_Put; simpl;
      case_bool_decide; [same_persisted|];
      destruct (put_fault env dsCheckCidListKey); [same_persisted|];
      eapply persisted_check_put; simpl; reflexivity.
  - unfold Shutdown.
    repeat (case_match || case_bool_decide); simplify_eq/=; same_persisted.
Qed.

Lemma reachable_persisted_sound e : reachable lib e -> persisted_sound e.
Proof.
  induction 1 as [env kind blk e Hnew|e e' _ IH (env & op & Hstep)].
  - assert (Hds : ds e = ∅).
    { unfold New, initInfo in Hnew. repeat case_match; simplify_eq/=; reflexivity. }
    unfold persisted_sound. rewrite Hds. repeat split; intros v; rewrite lookup_empty; discriminate.
  - pose proof (run_op_persisted env op e) as [_ Hkeep].
    destruct (run_op lib env op e); simplify_eq/=; apply Hkeep, IH.
Qed.

(** Restart from any state a process reached: when the reads do not fail,
    [New] over the datastore succeeds; the history it reads back is a prefix
    of the history the process held, and the pointer it reads back is
    undefined or an id of that history. *)
Theorem New_after_reachable e env kind blk :
  reachable lib e ->
  (forall key, get_fault env key = None) ->
  exists e0, New env kind (ds e) blk = Ok e0 /\
    pushList e0 `prefix_of` pushList e /\
    (latestMeta e0 = Undef \/ latestMeta e0 ∈ pushList e).
Proof.
  intros Hreach Hget.
  destruct (reachable_persisted_sound e Hreach) as (Hl & Hp & Hc).
  unfold New, initInfo, getLatestMetaCid, GetPushedList, GetCheckList, ds_Get. simpl.
  rewrite !Hget.
  assert (Hlatest : exists c,
            match ds e !! dsLatestMetaKey with
            | Some (RawBytes b) => CidFromBytes b
            | Some _ => Err (ErrExternal "invalid cid bytes")
            | None => Ok Undef
            end = Ok c /\ (c = Undef \/ c ∈ pushList e)).
  { destruct (ds e !! dsLatestMetaKey) as [v|]; [|eauto].
    destruct (Hl v eq_refl) as (c & -> & Hne & Hin).
    exists c. split; [apply CidFromBytes_Bytes, Hne | auto]. }
  destruct Hlatest as (c & Hread & Hc0).
  destruct (ds e !! dsLatestMetaKey) as [v|] eqn:Hv.
  - destruct (Hl v eq_refl) as (c' & -> & _ & _). rewrite Hread. simpl.
    destruct (ds e !! dsPushedCidListKey) as [vl|] eqn:Hvl;
      [destruct (Hp vl eq_refl) as (l & -> & Hpre)|];
      (destruct (ds e !! dsCheckCidListKey) as [vc|] eqn:Hvc;
        [destruct (Hc vc eq_refl) as (s0 & ->)|]);
      simpl; eexists; (split; [reflexivity|]); simpl;
      (split; [try exact Hpre; apply prefix_nil | exact Hc0]).
  - simplify_eq/=.
    destruct (ds e !! dsPushedCidListKey) as [vl|] eqn:Hvl;
      [destruct (Hp vl eq_refl) as (l & -> & Hpre)|];
      (destruct (ds e !! dsCheckCidListKey) as [vc|] eqn:Hvc;
        [destruct (Hc vc eq_refl) as (s0 & ->)|]);
      simpl; eexists; (split; [reflexivity|]); simpl;
      (split; [try exact Hpre; apply prefix_nil | auto]).
Qed.

End Reconciliation.

(** * The further properties on the concrete setting *)

Lemma New_absent_records_witness :
  New Fixture.quiet HttpPublisher ∅ ∅ = Ok (Fixture.fresh HttpPublisher).
Proof.
  apply (New_absent_records Fixture.quiet HttpPublisher ∅ ∅); try reflexivity.
  intros key. left. reflexivity.
Defined.

Lemma New_read_error_witness :
  exists err', New Fixture.read_fails HttpPublisher ∅ ∅ = Err err'.
Proof.
  apply (New_read_error Fixture.read_fails HttpPublisher ∅ ∅ dsPushedCidListKey
           (ErrExternal "disk full")).
  - right. left. reflexivity.
  - reflexivity.
  - discriminate.
Defined.

Lemma New_after_Publish_witness :
  New Fixture.quiet DataTransferPublisher (ds (Fixture.published DataTransferPublisher)) ∅ =
  Ok (mkEngine DataTransferPublisher (ds (Fixture.published DataTransferPublisher)) ∅ None
        (latestMeta (Fixture.published DataTransferPublisher))
        (pushList (Fixture.published DataTransferPublisher))
        (checkList (Fixture.published DataTransferPublisher)) false).
Proof.
  apply (New_after_Publish Fixture.lib Fixture.quiet Fixture.ad_hello
           (Fixture.started DataTransferPublisher) Fixture.cid_hello
           (Fixture.published DataTransferPublisher) (mkPublisher Undef [] false)).
  - vm_compute. reflexivity.
  - reflexivity.
  - intros key. reflexivity.
Defined.

Lemma Start_NoPublisher_with_latest_witness :
  Start Fixture.quiet (Fixture.restarted NoPublisher) =
  Panicked (set_publisher None (Fixture.restarted NoPublisher)).
Proof.
  apply (Start_NoPublisher_with_latest_panics Fixture.quiet (Fixture.restarted NoPublisher)
           Fixture.cid_hello); try (vm_compute; reflexivity).
  discriminate.
Defined.

Lemma Start_sets_root_silently_witness :
  Start Fixture.quiet (Fixture.restarted HttpPublisher) =
  Done tt (set_publisher (Some (mkPublisher Fixture.cid_hello [] false))
             (Fixture.restarted HttpPublisher)).
Proof.
  apply (Start_sets_root_silently Fixture.quiet (Fixture.restarted HttpPublisher)
           Fixture.cid_hello).
  - right. reflexivity.
  - reflexivity.
  - vm_compute. reflexivity.
  - intros _. reflexivity.
Defined.

Lemma Sync_selector_witness :
  Sync Fixture.lib Fixture.peer_serves_hello "bad(hello<-nil)" 0 EmptyString
    (Fixture.fresh NoPublisher) =
  synced Fixture.peer_serves_hello Fixture.cid_hello
    (LegSelector (RecursionLimitDepth 999999) None) (Fixture.fresh NoPublisher) /\
  Sync Fixture.lib Fixture.peer_serves_hello "bad(hello<-nil)" 0 "bad(world<-ad(hello<-nil))"
    (Fixture.fresh NoPublisher) =
  synced Fixture.peer_serves_hello Fixture.cid_hello
    (LegSelector RecursionLimitNone (Some Fixture.cid_world)) (Fixture.fresh NoPublisher).
Proof.
  destruct (Sync_selector Fixture.lib Fixture.peer_serves_hello "bad(hello<-nil)"
              Fixture.cid_hello 0 EmptyString (Fixture.fresh NoPublisher) eq_refl eq_refl)
    as [Hplain _].
  destruct (Sync_selector Fixture.lib Fixture.peer_serves_hello "bad(hello<-nil)"
              Fixture.cid_hello 0 "bad(world<-ad(hello<-nil))" (Fixture.fresh NoPublisher)
              eq_refl eq_refl)
    as [_ Hstop].
  split.
  - apply Hplain. reflexivity.
  - apply (Hstop Fixture.cid_world); [discriminate | reflexivity | discriminate].
Defined.



Lemma handleResError_witness :
  handleResError (Response 200 (InclusionJson 200 "ok" None)) =
  Ok (InclusionJson 200 "ok" None).
Proof.
  apply (handleResError_Ok_iff (Response 200 (InclusionJson 200 "ok" None))).
  reflexivity.
Defined.

Lemma SyncWithProvider_Done_witness :
  exists code message dataCid res,
    head_query Fixture.head_is_hello "12D3KooWpeer" =
      Response 200 (HeadJson code message dataCid) /\
    Sync Fixture.lib Fixture.head_is_hello dataCid 2 EmptyString (Fixture.fresh NoPublisher) =
      Done res (state_of (SyncWithProvider Fixture.lib Fixture.head_is_hello "12D3KooWpeer" 2
                            EmptyString (Fixture.fresh NoPublisher))).
Proof.
  apply (SyncWithProvider_Done Fixture.lib Fixture.head_is_hello "12D3KooWpeer" 2 EmptyString
           (Fixture.fresh NoPublisher)).
  vm_compute. reflexivity.
Defined.

Lemma tick_removes_only_confirmed_witness :
  checkList (state_of (runCheck_tick Fixture.quiet (Fixture.published DataTransferPublisher)))
    ⊆ checkList (Fixture.published DataTransferPublisher).
Proof.
  apply (tick_removes_only_confirmed Fixture.quiet (Fixture.published DataTransferPublisher)).
Defined.

Lemma tick_removes_all_confirmed_witness :
  exists e',
    runCheck_tick Fixture.index_confirms (Fixture.published DataTransferPublisher) = Done tt e' /\
    forall k, k ∈ checkList e' <->
      k ∈ checkList (Fixture.published DataTransferPublisher) /\
      ~ confirmed Fixture.index_confirms k.
Proof.
  apply (tick_removes_all_confirmed Fixture.index_confirms
           (Fixture.published DataTransferPublisher)).
  - reflexivity.
  - intros k _ code message. discriminate.
Defined.

Lemma Shutdown_closes_witness :
  exists e1,
    survives (Shutdown Fixture.quiet (Fixture.started DataTransferPublisher)) = Some e1 /\
    closing e1 = true.
Proof.
  destruct (Shutdown_closes Fixture.quiet (Fixture.started DataTransferPublisher) eq_refl)
    as (e1 & Hrun & Hclosed & _).
  exists e1. split; assumption.
Defined.

Lemma Shutdown_twice_witness :
  exists e2,
    Shutdown Fixture.quiet
      (state_of (Shutdown Fixture.quiet (Fixture.started DataTransferPublisher))) =
    Panicked e2.
Proof.
  apply (Shutdown_twice_panics Fixture.quiet (Fixture.started DataTransferPublisher)).
  vm_compute. reflexivity.
Defined.

Lemma tick_after_Shutdown_witness :
  exists e2,
    runCheck_tick Fixture.index_confirms
      (state_of (Shutdown Fixture.quiet (Fixture.published DataTransferPublisher))) =
      Done tt e2 /\
    checkList e2 =
    checkList (state_of (Shutdown Fixture.quiet (Fixture.published DataTransferPublisher))).
Proof.
  apply (tick_after_Shutdown Fixture.quiet (Fixture.published DataTransferPublisher)).
  vm_compute. reflexivity.
Defined.

Lemma Publish_latest_write_failure_witness :
  Publish Fixture.lib Fixture.latest_write_fails Fixture.ad_hello
    (Fixture.started DataTransferPublisher) =
  Failed (ErrorfWrap "failed to publish advertisement locally"
            (ErrorfWrap "failed to update reference to latest metadata"
               (ErrExternal "disk full")))
    (set_latestMeta Fixture.cid_hello
       (set_blocks (<[Fixture.cid_hello := MetaNode Fixture.ad_hello]>
                      (blocks (Fixture.started DataTransferPublisher)))
          (Fixture.started DataTransferPublisher))).
Proof.
  apply (Publish_latest_write_failure Fixture.lib Fixture.latest_write_fails Fixture.ad_hello
           (Fixture.started DataTransferPublisher) (ErrExternal "disk full"));
    try reflexivity.
  discriminate.
Defined.

Lemma Publish_pending_write_failure_witness :
  exists e',
    Publish Fixture.lib Fixture.pending_write_fails Fixture.ad_hello
      (Fixture.started DataTransferPublisher) = Failed (ErrExternal "disk full") e' /\
    checkList e' = {[ "bad(hello<-nil)" ]} ∪ checkList (Fixture.started DataTransferPublisher).
Proof.
  destruct (Publish_pending_write_failure Fixture.lib Fixture.pending_write_fails
              Fixture.ad_hello (Fixture.started DataTransferPublisher) Fixture.cid_hello
              (locally_published Fixture.ad_hello Fixture.cid_hello
                 (Fixture.started DataTransferPublisher))
              (mkPublisher Undef [] false) (ErrExternal "disk full"))
    as (e' & Hrun & Hpending & _); try (vm_compute; reflexivity).
  exists e'. split; assumption.
Defined.

Lemma CatCid_local_hit_witness :
  CatCid Fixture.lib Fixture.quiet Fixture.cid_hello (Fixture.published NoPublisher) =
  Done Fixture.hello (Fixture.published NoPublisher).
Proof.
  apply (CatCid_local_hit Fixture.lib Fixture.quiet Fixture.cid_hello
           (Fixture.published NoPublisher) Fixture.ad_hello);
    vm_compute; reflexivity.
Defined.

Lemma CatCid_after_PublishBytesData_witness :
  CatCid Fixture.lib Fixture.quiet Fixture.cid_world (Fixture.published_twice NoPublisher) =
  Done Fixture.world (Fixture.published_twice NoPublisher).
Proof.
  apply (CatCid_after_PublishBytesData Fixture.lib Fixture.quiet Fixture.world
           (Fixture.published NoPublisher)).
  - vm_compute. reflexivity.
  - reflexivity.
Defined.

Lemma PublishLatest_after_Publish_witness :
  PublishLatest Fixture.quiet (Fixture.published HttpPublisher) =
  Done Fixture.cid_hello
    (set_publisher
       (Some (mkPublisher Fixture.cid_hello [Fixture.cid_hello; Fixture.cid_hello] false))
       (Fixture.published HttpPublisher)).
Proof.
  apply (PublishLatest_after_Publish Fixture.lib Fixture.quiet Fixture.ad_hello
           (Fixture.started HttpPublisher) Fixture.cid_hello
           (Fixture.published HttpPublisher) (mkPublisher Undef [] false));
    vm_compute; reflexivity.
Defined.

Lemma published_reachable kind :
  kind = DataTransferPublisher \/ kind = NoPublisher ->
  reachable Fixture.lib (Fixture.published kind).
Proof.
  intros Hkind.
  apply (reachable_step Fixture.lib (Fixture.started kind)).
  - apply (reachable_step Fixture.lib (Fixture.fresh kind)).
    + apply (reachable_New Fixture.lib Fixture.quiet kind ∅). reflexivity.
    + exists Fixture.quiet, OpStart. destruct Hkind as [-> | ->]; vm_compute; reflexivity.
  - exists Fixture.quiet, (OpPublishBytesData Fixture.hello).
    destruct Hkind as [-> | ->]; vm_compute; reflexivity.
Defined.

Lemma reachable_stored_history_witness :
  stored_history (Fixture.published DataTransferPublisher).
Proof.
  apply (reachable_stored_history Fixture.lib).
  apply published_reachable. left. reflexivity.
Defined.

Lemma New_after_reachable_witness :
  exists e0,
    New Fixture.quiet NoPublisher (ds (Fixture.published NoPublisher)) ∅ = Ok e0 /\
    pushList e0 `prefix_of` pushList (Fixture.published NoPublisher) /\
    (latestMeta e0 = Undef \/ latestMeta e0 ∈ pushList (Fixture.published NoPublisher)).
Proof.
  apply (New_after_reachable Fixture.lib).
  - apply published_reachable. right. reflexivity.
  - intros key. reflexivity.
Defined.
